(** * Claimer-API: snapshot claim verification and capped redistribution

    A shallow embedding of [index.js] and [utils/discord.js]:
    - [escapeCsvField], the CSV field escaper;
    - the [GET /download-csv] handler: aggregation by EPIX address, the
      BigInt multiplier, the final balance of each destination, the
      correction of the last entry and the CSV text;
    - the [POST /verify-snapshot] handler as a program over its awaited
      calls, run for one request on its own and for several requests
      interleaved by the event loop;
    - the [GET /claims] and [GET /check-balance] handlers.

    JavaScript [BigInt] values are [Z]; [BigInt] division truncates towards
    zero ([Z.quot]) and throws a [RangeError] on a zero divisor.  A JS [Map]
    is an association list in insertion order.

    The definitions come first; the properties follow, from the section
    _Properties_ on. *)

From Stdlib Require Import ZArith List String Ascii Bool Lia DecimalString
  Permutation.
Import ListNotations.

Open Scope string_scope.
Open Scope list_scope.
Open Scope Z_scope.

(** ** JavaScript primitives used by the handlers *)

Module JS.

(** Abrupt completions the handlers can meet. *)
Inductive js_error : Type :=
| RangeError     (* BigInt division by zero *)
| TypeError      (* property read on undefined or null *)
| NetworkError   (* axios rejected: timeout, non-2xx, connection *)
| DatabaseError. (* a Sequelize call rejected *)

Inductive completion (A : Type) : Type :=
| Normal (a : A)
| Throw (e : js_error).
Arguments Normal {A} a.
Arguments Throw {A} e.

Definition bind {A B : Type} (c : completion A) (k : A -> completion B)
  : completion B :=
  match c with
  | Normal a => k a
  | Throw e => Throw e
  end.

(** [a / b] on BigInt. *)
Definition bigint_div (a b : Z) : completion Z :=
  if b =? 0 then Throw RangeError else Normal (Z.quot a b).

(** [a % b] on BigInt. *)
Definition bigint_rem (a b : Z) : completion Z :=
  if b =? 0 then Throw RangeError else Normal (Z.rem a b).

(** [BigInt.prototype.toString()] *)
Definition bigint_toString (z : Z) : string :=
  NilZero.string_of_int (Z.to_int z).

Fixpoint sequence {A : Type} (cs : list (completion A)) : completion (list A) :=
  match cs with
  | [] => Normal []
  | c :: rest => bind c (fun a => bind (sequence rest) (fun r => Normal (a :: r)))
  end.

End JS.

Import JS.

Notation "x <- c ;; k" := (JS.bind c (fun x => k))
  (at level 61, c at next level, right associativity).

(** ** An insertion-ordered [Map] with string keys *)

Module JsMap.

Definition t (V : Type) : Type := list (string * V).

Fixpoint get {V : Type} (k : string) (m : t V) : option V :=
  match m with
  | [] => None
  | (k', v) :: m' => if String.eqb k k' then Some v else get k m'
  end.

(** [Map.prototype.set]: an existing key keeps its position, a new key
    goes last. *)
Fixpoint set {V : Type} (k : string) (v : V) (m : t V) : t V :=
  match m with
  | [] => [(k, v)]
  | (k', v') :: m' =>
      if String.eqb k k' then (k', v) :: m' else (k', v') :: set k v m'
  end.

Definition keys {V : Type} (m : t V) : list string := map fst m.
Definition values {V : Type} (m : t V) : list V := map snd m.

End JsMap.

(** ** CSV fields *)

Module Csv.

Definition comma : ascii := ","%char.
Definition dquote : ascii := "034"%char.
Definition LF : ascii := "010"%char.
Definition CR : ascii := "013"%char.

(** [s.includes(c)] for a one-character needle. *)
Fixpoint includes (c : ascii) (s : string) : bool :=
  match s with
  | EmptyString => false
  | String x rest => Ascii.eqb x c || includes c rest
  end.

(** [s.replace(/QUOTE/g, QUOTE QUOTE)], where QUOTE is the double-quote
    character: every double quote is written twice. *)
Fixpoint double_quotes (s : string) : string :=
  match s with
  | EmptyString => EmptyString
  | String x rest =>
      if Ascii.eqb x dquote
      then String dquote (String dquote (double_quotes rest))
      else String x (double_quotes rest)
  end.

(** [escapeCsvField(field)].  [None] is [null] or [undefined]; [Some s]
    is a field whose [String(field)] is [s]. *)
Definition escapeCsvField (field : option string) : string :=
  match field with
  | None => ""
  | Some stringField =>
      if includes comma stringField || includes dquote stringField
         || includes LF stringField || includes CR stringField
      then String dquote (double_quotes stringField ++ String dquote "")%string
      else stringField
  end.

(** [parts.join(sep)] for a one-character separator. *)
Definition join (sep : ascii) (parts : list string) : string :=
  String.concat (String sep "") parts.

(** *** A reader for the exported text

    The export has no reader in the repository.  The one below is the
    usual state machine for comma-separated text: a field that opens with
    a double quote runs to the closing quote, a doubled quote inside it
    reads as one quote, a comma ends a field and a line feed ends a
    record, both only outside quotes; a carriage return outside quotes
    belongs to the line end and is dropped. *)
Inductive pstate : Type := FieldStart | Unquoted | Quoted | QuoteSeen.

Fixpoint parse_from (st : pstate) (field : string) (record : list string)
    (records : list (list string)) (input : string) : list (list string) :=
  match input with
  | EmptyString => records ++ [record ++ [field]]
  | String c rest =>
      match st with
      | Quoted =>
          if Ascii.eqb c dquote
          then parse_from QuoteSeen field record records rest
          else parse_from Quoted (field ++ String c "")%string record records rest
      | _ =>
          if Ascii.eqb c comma
          then parse_from FieldStart "" (record ++ [field]) records rest
          else if Ascii.eqb c LF
          then parse_from FieldStart "" [] (records ++ [record ++ [field]]) rest
          else if Ascii.eqb c CR
          then parse_from st field record records rest
          else if Ascii.eqb c dquote
          then match st with
               | FieldStart => parse_from Quoted "" record records rest
               | QuoteSeen =>
                   parse_from Quoted (field ++ String dquote "")%string
                     record records rest
               | _ =>
                   parse_from Unquoted (field ++ String c "")%string
                     record records rest
               end
          else parse_from Unquoted (field ++ String c "")%string record records rest
      end
  end.

Definition parse_csv (text : string) : list (list string) :=
  parse_from FieldStart "" [] [] text.

(** *** Notions used to state the properties of the escaper *)

(** The text of one record and of a whole table, as the handler builds
    them: fields escaped and joined by commas, records joined by line
    feeds. *)
Definition escape (s : string) : string := escapeCsvField (Some s).

Definition row_text (fields : list string) : string :=
  join comma (map escape fields).

Definition csv_text (rows : list (list string)) : string :=
  join LF (map row_text rows).

(** A field holds a comma, a double quote or a newline character (line
    feed or carriage return). *)
Definition needs_quotes (s : string) : bool :=
  existsb (fun c => Ascii.eqb c comma || Ascii.eqb c dquote
                    || Ascii.eqb c LF || Ascii.eqb c CR)
          (list_ascii_of_string s).

(** The characters of [s] with every double quote written twice. *)
Definition doubled (s : string) : string :=
  string_of_list_ascii
    (flat_map (fun c => if Ascii.eqb c dquote then [dquote; dquote] else [c])
              (list_ascii_of_string s)).

(** What may follow a field: nothing, a comma or a line feed. *)
Definition field_end (rest : string) : Prop :=
  match rest with
  | EmptyString => True
  | String c _ => c = comma \/ c = LF
  end.

(** A raw payload with a comma and a double quote in it. *)
Definition payload_with_comma_and_quote : string :=
  ("{" ++ String dquote "a" ++ String dquote ":1,"
       ++ String dquote "b" ++ String dquote ":2}")%string.

End Csv.

(** ** GET /download-csv *)

Module Redistribution.

Import Csv.

(** A row of the [Snapshot] table as [findAll] returns it, in ascending
    [id] order.  [snapshot_balance] is the BIGINT column, read by the
    handler through [BigInt(...)]; [raw_json] holds the text
    [JSON.stringify] gives for the stored payload. *)
Record Snapshot : Type := mkSnapshot {
  epix_address : string;
  x42_address : string;
  snapshot_balance : Z;
  signature : string;
  raw_json : string
}.

Definition TOTAL_SUPPLY : Z := 23689538.
(** [TOTAL_SUPPLY / 2]; the supply is even, so the JS number is exact. *)
Definition TARGET_BALANCE : Z := TOTAL_SUPPLY / 2.
Definition TARGET_BALANCE_SATS : Z := TARGET_BALANCE * 100000000.

(** [snapshots.forEach(...)]: the callback on the balances map. *)
Definition aggregate_step (aggregatedBalances : JsMap.t Z) (snapshot : Snapshot)
  : JsMap.t Z :=
  let currentBalance := snapshot_balance snapshot in
  let existingBalance :=
    match JsMap.get (epix_address snapshot) aggregatedBalances with
    | Some b => if b =? 0 then 0 else b   (* [get(..) || 0n] *)
    | None => 0
    end in
  JsMap.set (epix_address snapshot) (existingBalance + currentBalance)
    aggregatedBalances.

Definition aggregatedBalances (snapshots : list Snapshot) : JsMap.t Z :=
  fold_left aggregate_step snapshots [].

(** The same callback on the details map (filled when [detailed]). *)
Definition details_step (aggregatedDetails : JsMap.t (list Snapshot))
    (snapshot : Snapshot) : JsMap.t (list Snapshot) :=
  let details :=
    match JsMap.get (epix_address snapshot) aggregatedDetails with
    | Some ds => ds
    | None => []
    end in
  JsMap.set (epix_address snapshot) (details ++ [snapshot]) aggregatedDetails.

Definition aggregatedDetails (snapshots : list Snapshot)
  : JsMap.t (list Snapshot) :=
  fold_left details_step snapshots [].

(** [Array.from(values()).reduce((sum, balance) => sum + balance, 0n)] *)
Definition totalClaimedRaw (aggregated : JsMap.t Z) : Z :=
  fold_left (fun sum balance => sum + balance) (JsMap.values aggregated) 0.

(** One output entry: destination, aggregated original balance and final
    balance. *)
Record Entry : Type := mkEntry {
  epixAddress : string;
  originalBalance : Z;
  finalBalance : Z
}.

Section WithTarget.

(** The handler fixes the cap to [TARGET_BALANCE_SATS]; the algorithm is
    written over the cap so that it can be run at other caps too. *)
Variable target : Z.

Definition multiplierBigInt (total : Z) : completion Z :=
  if total >? target
  then bigint_div (target * 100000000) total
  else Normal 100000000.

(** One call of the [map] callback: reads and updates the captured
    [totalFinalBalance]. *)
Definition entry_callback (multiplier lastIndex : Z)
    (totalFinalBalance : Z) (entry : string * Z) (index : Z)
  : completion (Entry * Z) :=
  let '(epixAddress, originalBalance) := entry in
  scaled <- bigint_div (originalBalance * multiplier) 100000000 ;;
  let finalBalance :=
    if index =? lastIndex then
      let remaining := target - totalFinalBalance in
      if remaining >? 0 then remaining else scaled
    else scaled in
  Normal (mkEntry epixAddress originalBalance finalBalance,
          totalFinalBalance + finalBalance).

(** [aggregatedEntries.map(callback)], threading the accumulator. *)
Fixpoint map_entries (multiplier lastIndex : Z)
    (totalFinalBalance : Z) (index : Z) (entries : list (string * Z))
  : completion (list Entry * Z) :=
  match entries with
  | [] => Normal ([], totalFinalBalance)
  | entry :: rest =>
      r <- entry_callback multiplier lastIndex totalFinalBalance entry index ;;
      rs <- map_entries multiplier lastIndex (snd r) (index + 1) rest ;;
      Normal (fst r :: fst rs, snd rs)
  end.

(** The balance part of the handler, common to the compact and the
    detailed branch: the entries and the final [totalFinalBalance]. *)
Definition redistribute (snapshots : list Snapshot)
  : completion (list Entry * Z) :=
  let aggregated := aggregatedBalances snapshots in
  let total := totalClaimedRaw aggregated in
  multiplier <- multiplierBigInt total ;;
  let aggregatedEntries := aggregated in
  let lastIndex := Z.of_nat (List.length aggregatedEntries) - 1 in
  map_entries multiplier lastIndex 0 0 aggregatedEntries.

End WithTarget.

Definition download_csv_balances (snapshots : list Snapshot)
  : completion (list Entry * Z) :=
  redistribute TARGET_BALANCE_SATS snapshots.

(** *** The CSV text *)

Fixpoint repeat_char (c : ascii) (n : nat) : string :=
  match n with
  | O => EmptyString
  | S n' => String c (repeat_char c n')
  end.

(** [s.padStart(n, c)] *)
Definition padStart (n : nat) (c : ascii) (s : string) : string :=
  (repeat_char c (n - String.length s) ++ s)%string.

Definition finalBalanceStr (finalBalance : Z) : completion string :=
  whole <- bigint_div finalBalance 100000000 ;;
  frac <- bigint_rem finalBalance 100000000 ;;
  Normal (bigint_toString whole ++ "." ++
          padStart 8 "0"%char (bigint_toString frac))%string.

Definition is_digit (c : ascii) : bool :=
  let n := nat_of_ascii c in (48 <=? n)%nat && (n <=? 57)%nat.

(** [s.replace(/(\d{2})$/, '.$1')]: a dot before the last two characters
    when both are digits. *)
Definition dot_before_last_two (s : string) : string :=
  let n := String.length s in
  let tail := String.substring (n - 2) 2 s in
  match tail with
  | String a (String b EmptyString) =>
      if (2 <=? n)%nat && is_digit a && is_digit b
      then (String.substring 0 (n - 2) s ++ "." ++ tail)%string
      else s
  | _ => s
  end.

Definition deduction_percentage (multiplier : Z) : completion string :=
  p <- bigint_div ((100000000 - multiplier) * 10000) 100000000 ;;
  Normal (dot_before_last_two (bigint_toString p) ++ "%")%string.

Definition compact_row (e : Entry) : completion string :=
  balance <- finalBalanceStr (finalBalance e) ;;
  Normal (escapeCsvField (Some (epixAddress e)) ++ "," ++
          escapeCsvField (Some balance))%string.

(** The fields of the detailed row of one source claim [d] of entry [e]. *)
Definition detailed_fields (multiplier : Z) (e : Entry) (d : Snapshot)
  : completion (list string) :=
  balance <- finalBalanceStr (finalBalance e) ;;
  percentage <- deduction_percentage multiplier ;;
  Normal [ epixAddress e;
           x42_address d;
           bigint_toString (snapshot_balance d);
           balance;
           bigint_toString (snapshot_balance d - finalBalance e);
           percentage;
           signature d;
           raw_json d ].

Definition detailed_rows (multiplier : Z) (details : JsMap.t (list Snapshot))
    (e : Entry) : completion string :=
  let ds := match JsMap.get (epixAddress e) details with
            | Some ds => ds
            | None => []
            end in
  rows <- sequence (map (detailed_fields multiplier e) ds) ;;
  Normal (join LF (map (fun fields =>
                          join comma (map (fun f => escapeCsvField (Some f)) fields))
                       rows)).

Definition detailed_headers : list string :=
  [ "epix_address"; "x42_address"; "original_balance"; "final_balance";
    "deduction_amount"; "deduction_percentage"; "signature"; "raw_json" ].

Definition csvContent (detailed : bool) (snapshots : list Snapshot)
  : completion string :=
  let total := totalClaimedRaw (aggregatedBalances snapshots) in
  multiplier <- multiplierBigInt TARGET_BALANCE_SATS total ;;
  r <- download_csv_balances snapshots ;;
  if detailed then
    csvRows <- sequence (map (detailed_rows multiplier
                                (aggregatedDetails snapshots)) (fst r)) ;;
    Normal (join comma detailed_headers ++ String LF "" ++ join LF csvRows)%string
  else
    csvRows <- sequence (map compact_row (fst r)) ;;
    Normal ("epix_address,balance" ++ String LF "" ++ join LF csvRows)%string.

(** The handler: status and body.  The [catch] block answers 500. *)
Definition download_csv (detailed : bool) (snapshots : list Snapshot)
  : Z * string :=
  match csvContent detailed snapshots with
  | Normal content => (200, content)
  | Throw _ => (500, "Internal server error")
  end.

(** *** Notions used to state the properties of the redistribution *)

Definition sumZ (l : list Z) : Z := fold_right Z.add 0 l.

Definition sum_final (entries : list Entry) : Z :=
  sumZ (map finalBalance entries).

(** Claimed balances are amounts held on chain: none is negative. *)
Definition nonneg_claims (snapshots : list Snapshot) : Prop :=
  Forall (fun s => 0 <= snapshot_balance s) snapshots.

(** [(originalBalance * multiplier) / 100000000n], as BigInt computes it. *)
Definition scaled (multiplier originalBalance : Z) : Z :=
  Z.quot (originalBalance * multiplier) 100000000.

Definition scale_entry (multiplier : Z) (entry : string * Z) : Entry :=
  mkEntry (fst entry) (snd entry) (scaled multiplier (snd entry)).

(** The final balance of the entry at [lastIndex]. *)
Definition last_final (target multiplier total before_last o : Z) : Z :=
  let remaining := target - (total + before_last) in
  if remaining >? 0 then remaining else scaled multiplier o.

(** The distinct elements of a list, each at its first occurrence. *)
Fixpoint first_occurrences (l : list string) : list string :=
  match l with
  | [] => []
  | x :: rest =>
      x :: filter (fun y => negb (String.eqb y x)) (first_occurrences rest)
  end.

Definition mem (y : string) (l : list string) : bool :=
  existsb (String.eqb y) l.

(** The greatest string of a list in lexical order. *)
Definition lexical_last (l : list string) : option string :=
  fold_left (fun acc x =>
               match acc with
               | None => Some x
               | Some y => if String.leb y x then Some x else Some y
               end) l None.

(** *** Claim sets used as examples *)

Definition claimA : Snapshot := mkSnapshot "A" "xA" 300000000 "sigA" "{}".
Definition claimB : Snapshot := mkSnapshot "B" "xB" 700000000 "sigB" "{}".
Definition claimZero : Snapshot := mkSnapshot "A" "xA" 0 "sigA" "{}".
Definition claim_b : Snapshot := mkSnapshot "b" "x1" 10 "sig1" "{}".
Definition claim_a : Snapshot := mkSnapshot "a" "x2" 10 "sig2" "{}".
Definition claimQ : Snapshot :=
  mkSnapshot "epix1q" "xQ" 250000000 "sigQ" payload_with_comma_and_quote.

End Redistribution.

(** ** POST /verify-snapshot *)

Module Verify.

(** *** JSON values as the handler sees them *)

(** A value read from a parsed JSON document, or [undefined] for an
    absent property.  [JNum] carries the numeric value of a number;
    [JObj] is an object or an array and carries the string its
    conversion to a primitive yields. *)
Inductive jsval : Type :=
| JUndefined
| JNull
| JBool (b : bool)
| JNum (n : Z)
| JStr (s : string)
| JObj (prim : string).

(** [!!v] *)
Definition truthy (v : jsval) : bool :=
  match v with
  | JUndefined | JNull => false
  | JBool b => b
  | JNum n => negb (n =? 0)
  | JStr s => negb (String.eqb s "")
  | JObj _ => true
  end.

(** [a === b] for two values that come from different JSON documents:
    same type and same value; two objects are never the same object. *)
Definition strict_eq (a b : jsval) : bool :=
  match a, b with
  | JUndefined, JUndefined => true
  | JNull, JNull => true
  | JBool x, JBool y => Bool.eqb x y
  | JNum x, JNum y => x =? y
  | JStr x, JStr y => String.eqb x y
  | _, _ => false
  end.

(** *** Requests, rows, responses *)

(** [req.headers['signature']] and [req.body]; [body_json] is
    [JSON.stringify(req.body)].  The two addresses are strings, as the
    request schema says. *)
Record request : Type := mkRequest {
  header_signature : option string;
  body_x42_address : string;
  body_epix_address : string;
  body_snapshot_balance : jsval;
  body_json : string
}.

(** The attributes given to [Snapshot.create]. *)
Record Snapshot : Type := mkSnapshot {
  raw_json : string;
  signature : string;
  x42_address : string;
  epix_address : string;
  snapshot_balance : jsval
}.

Inductive json_body : Type :=
| ErrorBody (error : string)
| MessageBody (message : string).

Record response : Type := mkResponse {
  status : Z;
  body : json_body
}.

(** [blockHeightResponse.data]: absent or falsy, or a value whose
    [tipHeight] property is the given one. *)
Inductive tip_data : Type :=
| NoData
| Data (tipHeight : jsval).

(** *** Effects of the handler *)

Inductive console_level : Type := ConsoleWarn | ConsoleError.

Inductive eff : Type -> Type :=
| AxiosGetTip : eff (completion tip_data)
| NewDate : eff Z
| FindOne (x42 : string) : eff (completion (option Snapshot))
| AxiosGetBalances (x42 : string) : eff (completion (option jsval))
| AxiosPostVerifymessage (signature externalAddress message : string)
    : eff (completion jsval)
| Create (row : Snapshot) : eff (completion unit)
| SendNotification (x42Address : string) (snapshotBalance : jsval) : eff unit
| Console (level : console_level) (text : string) : eff unit
| Send (r : response) : eff unit.

(** [await] suspends the handler; the other effects run in the same
    turn of the event loop. *)
Definition is_await {A : Type} (e : eff A) : bool :=
  match e with
  | AxiosGetTip | FindOne _ | AxiosGetBalances _
  | AxiosPostVerifymessage _ _ _ | Create _ => true
  | NewDate | SendNotification _ _ | Console _ _ | Send _ => false
  end.

Inductive prog : Type :=
| Done
| Vis {A : Type} (e : eff A) (k : A -> prog).

(** [return res.status(s).json(b)] *)
Definition respond (s : Z) (b : json_body) : prog :=
  Vis (Send (mkResponse s b)) (fun _ => Done).

(** The [catch (error)] block of the handler. *)
Definition catch_block : prog :=
  Vis (Console ConsoleError "error")
      (fun _ => respond 500 (ErrorBody "Internal server error")).

(** [const x = await e; k x] inside the [try]. *)
Definition try_await {A : Type} (e : eff (completion A)) (k : A -> prog)
  : prog :=
  Vis e (fun r => match r with
                  | Normal a => k a
                  | Throw _ => catch_block
                  end).


(** What an observer of the server sees. *)
Inductive event : Type :=
| EvGetTip
| EvNewDate
| EvFindOne (x42 : string)
| EvGetBalances (x42 : string)
| EvVerifymessage (signature externalAddress message : string)
| EvCreate (row : Snapshot)
| EvWebhookPost (x42Address : string) (snapshotBalance : jsval)
| EvConsole (level : console_level) (text : string)
| EvSend (r : response).

Definition is_chain_call (ev : event) : bool :=
  match ev with
  | EvGetTip | EvGetBalances _ | EvVerifymessage _ _ _ => true
  | _ => false
  end.

Definition snapshotHeight : Z := 3000000.
(** [new Date('2025-06-06T00:00:00Z')], in milliseconds. *)
Definition claimDeadline : Z := 1749168000000.

Section Runtime.

(** The runtime's conversion of a string to a number, [None] when the
    result is [NaN]. *)
Variable StringToNumber : string -> option Z.

(** [v == n] for a number [n]. *)
Definition loose_eq_number (v : jsval) (n : Z) : bool :=
  match v with
  | JUndefined | JNull => false
  | JBool b => (if b then 1 else 0) =? n
  | JNum m => m =? n
  | JStr s | JObj s =>
      match StringToNumber s with
      | Some m => m =? n
      | None => false
      end
  end.

Definition verify_snapshot (req : request) : prog :=
  let x42_address := body_x42_address req in
  let epix_address := body_epix_address req in
  let snapshot_balance := body_snapshot_balance req in
  match header_signature req with
  | None | Some EmptyString =>
      respond 400 (ErrorBody "Signature is required")
  | Some signature =>
      try_await AxiosGetTip (fun blockHeightResponse =>
      match blockHeightResponse with
      | NoData => respond 400 (ErrorBody "Unable to retrieve block height")
      | Data tipHeight =>
      if negb (truthy tipHeight)
      then respond 400 (ErrorBody "Unable to retrieve block height")
      else if negb (loose_eq_number tipHeight snapshotHeight)
      then respond 400 (ErrorBody "Block height must be at 3,000,000 blocks")
      else
      Vis NewDate (fun now =>
      if now >? claimDeadline
      then respond 400 (ErrorBody
             "Claim period has ended. The deadline was June 6th, 2025 at 00:00:00 UTC")
      else
      try_await (FindOne x42_address) (fun existingSnapshot =>
      match existingSnapshot with
      | Some _ =>
          respond 400 (ErrorBody
            "Duplicate address. Snapshot was already verified.")
      | None =>
      try_await (AxiosGetBalances x42_address) (fun first_balance =>
      match first_balance with
      | None => catch_block   (* [data.balances[0]] cannot be read *)
      | Some balance =>
      if negb (strict_eq balance snapshot_balance)
      then respond 400 (ErrorBody "Balance verification failed")
      else
      try_await (AxiosPostVerifymessage signature x42_address (body_json req))
        (fun verification =>
      if negb (strict_eq verification (JStr "True"))
      then respond 400 (ErrorBody "Signature verification failed")
      else
      try_await (Create (mkSnapshot (body_json req) signature x42_address
                                    epix_address snapshot_balance))
        (fun _ =>
      Vis (SendNotification x42_address snapshot_balance) (fun _ =>
      respond 200 (MessageBody "Snapshot verified and stored successfully"))))
      end)
      end))
      end)
  end.


(** *** The world around one request *)

(** What the chain node, the clock, the database and the webhook answer
    to the calls of one request.  [Throw] is a rejected promise
    (timeout, connection failure, non-2xx status).  For
    [chain_balances], [Normal None] is a response whose
    [data.balances[0]] cannot be read and [Normal (Some v)] one whose
    first entry has [balance] equal to [v]. *)
Record world : Type := mkWorld {
  chain_tip : completion tip_data;
  clock : Z;
  db_find_fault : bool;
  chain_balances : string -> completion (option jsval);
  chain_verifymessage : string -> string -> string -> completion jsval;
  db_create_fault : bool;
  DISCORD_WEBHOOK_URL : bool;
  webhook_post : completion unit
}.

(** The table, in ascending [id] order.  The model declares no unique
    index, so [create] appends. *)
Definition store : Type := list Snapshot.

Definition findOne (x42 : string) (st : store) : option Snapshot :=
  find (fun row => String.eqb (x42_address row) x42) st.

(** [utils/discord.js]: the events of the caller's turn, the events
    once the POST has settled, and the value of the promise. *)
Definition sendSnapshotVerificationNotification (w : world)
    (x42Address : string) (snapshotBalance : jsval)
  : list event * (list event * bool) :=
  if negb (DISCORD_WEBHOOK_URL w)
  then ([EvConsole ConsoleWarn
           "Discord webhook URL not configured, skipping notification"],
        ([], false))
  else ([EvWebhookPost x42Address snapshotBalance],
        match webhook_post w with
        | Normal _ => ([], true)
        | Throw _ =>
            ([EvConsole ConsoleError "Failed to send Discord webhook:"], false)
        end).

(** The answer of one effect, the table after it, the events of this
    turn and the events that come once the turn is over. *)
Definition handle (w : world) (st : store) {A : Type} (e : eff A)
  : A * store * list event * list event :=
  match e in eff T return T * store * list event * list event with
  | AxiosGetTip => (chain_tip w, st, [EvGetTip], [])
  | NewDate => (clock w, st, [EvNewDate], [])
  | FindOne x42 =>
      (if db_find_fault w then Throw DatabaseError
       else Normal (findOne x42 st),
       st, [EvFindOne x42], [])
  | AxiosGetBalances x42 =>
      (chain_balances w x42, st, [EvGetBalances x42], [])
  | AxiosPostVerifymessage sig addr msg =>
      (chain_verifymessage w sig addr msg, st,
       [EvVerifymessage sig addr msg], [])
  | Create row =>
      if db_create_fault w
      then (Throw DatabaseError, st, [EvCreate row], [])
      else (Normal tt, (st ++ [row]), [EvCreate row], [])
  | SendNotification x42Address snapshotBalance =>
      let '(now, (later, success)) :=
        sendSnapshotVerificationNotification w x42Address snapshotBalance in
      (* [.then(success => { if (!success) console.warn(...) })] *)
      (tt, st, now,
       (later ++ if success then []
                 else [EvConsole ConsoleWarn
                         "Discord notification failed for address:"]))
  | Console level text => (tt, st, [EvConsole level text], [])
  | Send r => (tt, st, [EvSend r], [])
  end.

(** *** One request on its own *)

(** Runs the handler to its end.  The events of callbacks that were
    not awaited come after those of the handler. *)
Fixpoint run (w : world) (st : store) (later : list event) (p : prog)
  : store * list event :=
  match p with
  | Done => (st, later)
  | Vis e k =>
      let '(a, st1, now, later1) := handle w st e in
      let '(st2, trace) := run w st1 (later ++ later1) (k a) in
      (st2, (now ++ trace))
  end.

Definition handle_request (w : world) (st : store) (req : request)
  : store * list event :=
  run w st [] (verify_snapshot req).

(** The response is what the first [res.status(..).json(..)] sent. *)
Fixpoint response_of (trace : list event) : option response :=
  match trace with
  | [] => None
  | EvSend r :: _ => Some r
  | _ :: rest => response_of rest
  end.

(** *** Several requests in flight *)

(** A handler runs without interruption up to its next [await]. *)
Fixpoint run_turn (w : world) (st : store) (p : prog)
  : store * prog * list event * list event :=
  match p with
  | Done => (st, Done, [], [])
  | Vis e k =>
      if is_await e then (st, p, [], [])
      else
        let '(a, st1, now, later1) := handle w st e in
        let '(st2, p2, trace, later2) := run_turn w st1 (k a) in
        (st2, p2, (now ++ trace), (later1 ++ later2))
  end.

(** The awaited call at the head of [p] settles and the handler runs
    on to its next [await]. *)
Definition resume (w : world) (st : store) (p : prog)
  : store * prog * list event * list event :=
  match p with
  | Done => (st, Done, [], [])
  | Vis e k =>
      let '(a, st1, now, later1) := handle w st e in
      let '(st2, p2, trace, later2) := run_turn w st1 (k a) in
      (st2, p2, (now ++ trace), (later1 ++ later2))
  end.

Record thread : Type := mkThread {
  th_world : world;
  th_prog : prog;
  th_trace : list event
}.

(** A request arrives: its handler runs to the first [await]. *)
Definition spawn (w : world) (st : store) (req : request) : store * thread :=
  let '(st1, p, trace, later) := run_turn w st (verify_snapshot req) in
  (st1, mkThread w p (trace ++ later)).

Fixpoint update_nth {A : Type} (n : nat) (x : A) (l : list A) : list A :=
  match n, l with
  | _, [] => []
  | O, _ :: rest => x :: rest
  | S n', y :: rest => y :: update_nth n' x rest
  end.

(** The event loop: each entry of the schedule names the request whose
    pending call settles next.  The log keeps the events in the order in
    which they happen, with the number of the request. *)
Fixpoint interleave (schedule : list nat) (st : store) (threads : list thread)
    (log : list (nat * event)) : store * list thread * list (nat * event) :=
  match schedule with
  | [] => (st, threads, log)
  | i :: rest =>
      match nth_error threads i with
      | None => interleave rest st threads log
      | Some t =>
          let '(st1, p, trace, later) := resume (th_world t) st (th_prog t) in
          interleave rest st1
            (update_nth i
               (mkThread (th_world t) p (th_trace t ++ trace ++ later))
               threads)
            (log ++ map (pair i) (trace ++ later))
      end
  end.

(** *** The checks, one by one

    The verification steps as separate checks on the world, the table
    and the request, in the order of the specification; the handler is
    compared with their sequence below. *)

Inductive check_result : Type :=
| Pass
| Reject (reason : string)
| Fault.

Definition check : Type := world -> store -> request -> check_result.

Definition missing_signature_check : check := fun _ _ req =>
  match header_signature req with
  | None | Some EmptyString => Reject "Signature is required"
  | Some _ => Pass
  end.

Definition snapshot_height_check : check := fun w _ _ =>
  match chain_tip w with
  | Throw _ => Fault
  | Normal NoData => Reject "Unable to retrieve block height"
  | Normal (Data tipHeight) =>
      if negb (truthy tipHeight)
      then Reject "Unable to retrieve block height"
      else if negb (loose_eq_number tipHeight snapshotHeight)
      then Reject "Block height must be at 3,000,000 blocks"
      else Pass
  end.

Definition claim_deadline_check : check := fun w _ _ =>
  if clock w >? claimDeadline
  then Reject "Claim period has ended. The deadline was June 6th, 2025 at 00:00:00 UTC"
  else Pass.

Definition duplicate_address_check : check := fun w st req =>
  if db_find_fault w then Fault
  else match findOne (body_x42_address req) st with
       | Some _ => Reject "Duplicate address. Snapshot was already verified."
       | None => Pass
       end.

Definition balance_check : check := fun w _ req =>
  match chain_balances w (body_x42_address req) with
  | Throw _ | Normal None => Fault
  | Normal (Some balance) =>
      if strict_eq balance (body_snapshot_balance req) then Pass
      else Reject "Balance verification failed"
  end.

Definition signature_check : check := fun w _ req =>
  match header_signature req with
  | None => Reject "Signature is required"
  | Some signature =>
      match chain_verifymessage w signature (body_x42_address req)
              (body_json req) with
      | Throw _ => Fault
      | Normal verification =>
          if strict_eq verification (JStr "True") then Pass
          else Reject "Signature verification failed"
      end
  end.

Definition checks : list check :=
  [ missing_signature_check; snapshot_height_check; claim_deadline_check;
    duplicate_address_check; balance_check; signature_check ].

(** The result of the first check that does not pass. *)
Fixpoint first_failing (cs : list check) (w : world) (st : store)
    (req : request) : check_result :=
  match cs with
  | [] => Pass
  | c :: rest =>
      match c w st req with
      | Pass => first_failing rest w st req
      | failed => failed
      end
  end.

Definition claim_row (req : request) : Snapshot :=
  mkSnapshot (body_json req)
             (match header_signature req with Some s => s | None => "" end)
             (body_x42_address req) (body_epix_address req)
             (body_snapshot_balance req).

(** The response and the table that the sequence of checks, followed by
    the commit, calls for. *)
Definition pipeline (w : world) (st : store) (req : request)
  : response * store :=
  match first_failing checks w st req with
  | Reject reason => (mkResponse 400 (ErrorBody reason), st)
  | Fault => (mkResponse 500 (ErrorBody "Internal server error"), st)
  | Pass =>
      if db_create_fault w
      then (mkResponse 500 (ErrorBody "Internal server error"), st)
      else (mkResponse 200
              (MessageBody "Snapshot verified and stored successfully"),
            (st ++ [claim_row req]))
  end.

(** The calls a check makes on the outside. *)
Definition check_calls (n : nat) (req : request) : list event :=
  match n with
  | 1%nat => [EvGetTip]
  | 2%nat => [EvNewDate]
  | 3%nat => [EvFindOne (body_x42_address req)]
  | 4%nat => [EvGetBalances (body_x42_address req)]
  | 5%nat => [EvVerifymessage
                (match header_signature req with Some s => s | None => "" end)
                (body_x42_address req) (body_json req)]
  | _ => []
  end.

(** The number of checks that pass before the first that does not. *)
Fixpoint passed_before (cs : list check) (w : world) (st : store)
    (req : request) : nat :=
  match cs with
  | [] => O
  | c :: rest =>
      match c w st req with
      | Pass => S (passed_before rest w st req)
      | _ => O
      end
  end.

(** The calls of the checks performed: all checks up to and including
    the first that does not pass, in order. *)
Definition calls_performed (w : world) (st : store) (req : request)
  : list event :=
  flat_map (fun n => check_calls n req)
           (seq 0 (Nat.min 6 (S (passed_before checks w st req)))).

End Runtime.


(** *** Notions used to state the properties of the handler *)

Definition is_check_call (ev : event) : bool :=
  match ev with
  | EvGetTip | EvNewDate | EvFindOne _ | EvGetBalances _
  | EvVerifymessage _ _ _ => true
  | _ => false
  end.

(** The same world with another webhook configuration and outcome. *)
Definition with_webhook (w : world) (url : bool) (post : completion unit)
  : world :=
  mkWorld (chain_tip w) (clock w) (db_find_fault w) (chain_balances w)
          (chain_verifymessage w) (db_create_fault w) url post.

Definition success_body : json_body :=
  MessageBody "Snapshot verified and stored successfully".

(** *** Worlds and requests used as examples *)

Definition no_conversion : string -> option Z := fun _ => None.

(** The node is at the snapshot height, the claim period is open, the
    balance and the signature are right. *)
Definition world_ok : world :=
  mkWorld (Normal (Data (JNum 3000000))) 1740000000000 false
          (fun _ => Normal (Some (JNum 69223563046)))
          (fun _ _ _ => Normal (JStr "True"))
          false true (Normal tt).

(** The node answers the tip request with a 2xx response without a body. *)
Definition world_tip_without_data : world :=
  mkWorld (Normal NoData) 1740000000000 false
          (fun _ => Normal (Some (JNum 69223563046)))
          (fun _ _ _ => Normal (JStr "True"))
          false true (Normal tt).

(** The node answers the tip request with a body without [tipHeight]. *)
Definition world_tip_without_height : world :=
  mkWorld (Normal (Data JUndefined)) 1740000000000 false
          (fun _ => Normal (Some (JNum 69223563046)))
          (fun _ _ _ => Normal (JStr "True"))
          false true (Normal tt).

Definition request_one : request :=
  mkRequest (Some "H8sig") "XG9pb7U3F32QQ4dShADV2v71hdLAFQA2Gf"
            "epix1r2357f40wpkruzxu6ss87rvf0hp7hnln246h4x"
            (JNum 69223563046) "{body one}".

(** A second submission for the same source address. *)
Definition request_two : request :=
  mkRequest (Some "H8sig2") "XG9pb7U3F32QQ4dShADV2v71hdLAFQA2Gf"
            "epix1otherdestination"
            (JNum 69223563046) "{body two}".

(** Both submissions arrive before either has been answered; their
    awaited calls settle in turn. *)
Definition race_start : store * list thread :=
  let '(st1, t1) := spawn no_conversion world_ok [] request_one in
  let '(st2, t2) := spawn no_conversion world_ok st1 request_two in
  (st2, [t1; t2]).

Definition race_schedule : list nat := [0; 1; 0; 1; 0; 1; 0; 1; 0; 1]%nat.

Definition race_end : store * list thread * list (nat * event) :=
  interleave race_schedule (fst race_start) (snd race_start) [].

End Verify.

(** ** Further notions for GET /download-csv *)

Module CsvExport.

Import Csv Redistribution.

(** The claims of one destination, in table order. *)
Definition claims_of (d : string) (snapshots : list Snapshot) : list Snapshot :=
  filter (fun s => String.eqb (epix_address s) d) snapshots.

(** The text [finalBalanceStr] produces. *)
Definition balance_text (finalBalance : Z) : string :=
  (bigint_toString (Z.quot finalBalance 100000000) ++ "." ++
   padStart 8 "0"%char (bigint_toString (Z.rem finalBalance 100000000)))%string.

(** The text [deduction_percentage] produces. *)
Definition percentage_text (multiplier : Z) : string :=
  (dot_before_last_two
     (bigint_toString (Z.quot ((100000000 - multiplier) * 10000) 100000000))
   ++ "%")%string.

(** The record of one entry in the compact export. *)
Definition compact_record (e : Entry) : list string :=
  [ epixAddress e; balance_text (finalBalance e) ].

(** The record of one source claim [d] of entry [e] in the detailed
    export. *)
Definition detailed_record (multiplier : Z) (e : Entry) (d : Snapshot)
  : list string :=
  [ epixAddress e;
    x42_address d;
    bigint_toString (snapshot_balance d);
    balance_text (finalBalance e);
    bigint_toString (snapshot_balance d - finalBalance e);
    percentage_text multiplier;
    signature d;
    raw_json d ].

(** The records of the detailed export: for each entry in turn, one
    record per source claim of its destination. *)
Definition detailed_records (multiplier : Z) (entries : list Entry)
    (snapshots : list Snapshot) : list (list string) :=
  flat_map (fun e => map (detailed_record multiplier e)
                         (claims_of (epixAddress e) snapshots))
           entries.

End CsvExport.

(** ** GET /claims *)

Module Claims.

Import Verify.

(** [parseInt(x) || d], on the value [parseInt] returns ([None] for
    [NaN]). *)
Definition or_default (parsed : option Z) (d : Z) : Z :=
  match parsed with
  | Some n => if n =? 0 then d else n
  | None => d
  end.

(** [Snapshot.findAll({ attributes: ['raw_json', 'signature'],
    order: [['id', 'DESC']], offset, limit })]: the rows newest first,
    [offset] of them skipped, at most [limit] kept.  The database refuses
    a negative offset or limit. *)
Definition findAll_page (offset limit : Z) (st : store)
  : completion (list (string * string)) :=
  if (offset <? 0) || (limit <? 0) then Throw DatabaseError
  else Normal (map (fun row => (raw_json row, signature row))
                   (firstn (Z.to_nat limit) (skipn (Z.to_nat offset) (rev st)))).

(** The handler: status, and the list sent with status 200.  [db_fault]
    tells whether the query is rejected for a reason of the database's
    own. *)
Definition get_claims (page_parsed pageSize_parsed : option Z)
    (db_fault : bool) (st : store) : Z * list (string * string) :=
  let page := or_default page_parsed 1 in
  let pageSize := or_default pageSize_parsed 10 in
  match (if db_fault then Throw DatabaseError
         else findAll_page ((page - 1) * pageSize) pageSize st) with
  | Normal claims => (200, claims)
  | Throw _ => (500, [])
  end.

(** All claims as the endpoint lists them: newest first. *)
Definition newest_first (st : store) : list (string * string) :=
  map (fun row => (raw_json row, signature row)) (rev st).

End Claims.

(** ** Further notions for POST /verify-snapshot *)

Module Serve.

Import Verify.

Definition is_create (ev : event) : bool :=
  match ev with
  | EvCreate _ => true
  | _ => false
  end.

Section Runtime.

Variable StringToNumber : string -> option Z.

(** Requests handled one after the other, each in its own world: the
    table after the last. *)
Definition serve_all (requests : list (world * request)) (st : store) : store :=
  fold_left (fun table wr =>
               fst (handle_request StringToNumber (fst wr) table (snd wr)))
            requests st.

End Runtime.

End Serve.

(** ** GET /check-balance *)

Module CheckBalance.

Import Verify.

(** [balanceResponse.data] of the node's answer to
    [getaddressesbalances]: no data, data without [balances], or data
    whose [balances] is an array.  An entry of the array is [None] when it
    is [null] and [Some v] when its [balance] property reads [v]. *)
Inductive balances_data : Type :=
| NoBalancesData
| NoBalances
| Balances (entries : list (option jsval)).

Inductive balance_body : Type :=
| BalanceError (error : string)
| Balance (balance : jsval).

(** The handler; [address] is [req.query.address]. *)
Definition check_balance (address : option string)
    (balanceResponse : completion balances_data) : Z * balance_body :=
  match address with
  | None | Some EmptyString => (400, BalanceError "Address is required")
  | Some _ =>
      match balanceResponse with
      | Throw _ => (500, BalanceError "Internal server error")
      | Normal NoBalancesData | Normal NoBalances | Normal (Balances []) =>
          (400, BalanceError "Unable to retrieve balance for the given address")
      | Normal (Balances (None :: _)) =>
          (500, BalanceError "Internal server error")   (* TypeError *)
      | Normal (Balances (Some balance :: _)) => (200, Balance balance)
      end
  end.

(** What POST /verify-snapshot reads from the same answer with
    [const { balance } = balanceResponse.data.balances[0]]: [None] when
    the read throws. *)
Definition first_balance (data : balances_data) : option jsval :=
  match data with
  | Balances (Some balance :: _) => Some balance
  | _ => None
  end.

(** A world equal to [w] but for the node's answer to the balance
    request. *)
Definition with_balances (w : world) (answer : completion balances_data) : world :=
  mkWorld (chain_tip w) (clock w) (db_find_fault w)
          (fun _ => match answer with
                    | Normal data => Normal (first_balance data)
                    | Throw e => Throw e
                    end)
          (chain_verifymessage w) (db_create_fault w)
          (DISCORD_WEBHOOK_URL w) (webhook_post w).

End CheckBalance.

(** ** Further examples *)

Module MoreExamples.

Import Verify.

Definition claimWhale : Redistribution.Snapshot :=
  Redistribution.mkSnapshot "W" "xW" 2000000000000000 "sigW" "{}".

(** The node is one block short of the snapshot height. *)
Definition world_wrong_height : world :=
  mkWorld (Normal (Data (JNum 2999999))) 1740000000000 false
          (fun _ => Normal (Some (JNum 69223563046)))
          (fun _ _ _ => Normal (JStr "True"))
          false true (Normal tt).

(** One millisecond after the deadline. *)
Definition world_late : world :=
  mkWorld (Normal (Data (JNum 3000000))) 1749168000001 false
          (fun _ => Normal (Some (JNum 69223563046)))
          (fun _ _ _ => Normal (JStr "True"))
          false true (Normal tt).

Definition row_n (n : string) : Snapshot :=
  mkSnapshot n n n n (JNum 1).

End MoreExamples.

(** * Properties *)

(** ** Facts on the insertion-ordered map *)

Module JsMapFacts.

Import JsMap.

Lemma set_not_nil {V : Type} (k : string) (v : V) (m : t V) : set k v m <> [].
Proof.
  destruct m as [|[k' v'] m]; simpl; [|destruct (String.eqb k k')]; discriminate.
Qed.

Lemma get_some_in {V : Type} (k : string) (m : t V) (v : V) :
  get k m = Some v -> In k (keys m).
Proof.
  induction m as [|[k' v'] m IH]; simpl; [discriminate|].
  destruct (String.eqb_spec k k') as [->|Hne]; intros H; [now left|right; auto].
Qed.

Lemma get_none_notin {V : Type} (k : string) (m : t V) :
  get k m = None <-> ~ In k (keys m).
Proof.
  induction m as [|[k' v'] m IH]; simpl.
  - tauto.
  - destruct (String.eqb_spec k k') as [->|Hne].
    + split; [discriminate|]. intros H; exfalso; apply H; now left.
    + rewrite IH. split; intros H; [intros [E|I]; [congruence|tauto]|tauto].
Qed.

(** A key already present keeps its place; a new key goes last. *)
Lemma keys_set {V : Type} (k : string) (v : V) (m : t V) :
  keys (set k v m) =
  match get k m with Some _ => keys m | None => keys m ++ [k] end.
Proof.
  induction m as [|[k' v'] m IH]; simpl; [reflexivity|].
  destruct (String.eqb_spec k k') as [->|Hne]; simpl; [reflexivity|].
  rewrite IH. destruct (get k m); reflexivity.
Qed.

Lemma get_in_values {V : Type} (k : string) (m : t V) (v : V) :
  get k m = Some v -> In v (values m).
Proof.
  induction m as [|[k' v'] m IH]; simpl; [discriminate|].
  destruct (String.eqb k k'); intros H; [left; congruence|right; auto].
Qed.

Lemma in_values_set {V : Type} (k : string) (v x : V) (m : t V) :
  In x (values (set k v m)) -> x = v \/ In x (values m).
Proof.
  induction m as [|[k' v'] m IH]; simpl.
  - intros [H|[]]; auto.
  - destruct (String.eqb k k'); simpl; intros [H|H]; auto.
    destruct (IH H); auto.
Qed.

End JsMapFacts.

(** ** The redistribution of GET /download-csv *)

Module RedistributionProofs.

Import JsMapFacts Redistribution.

(** *** Sums *)

Lemma sumZ_cons (x : Z) (l : list Z) : sumZ (x :: l) = x + sumZ l.
Proof. reflexivity. Qed.

Lemma sumZ_app (l1 l2 : list Z) : sumZ (l1 ++ l2) = sumZ l1 + sumZ l2.
Proof.
  induction l1 as [|x l1 IH]; [reflexivity|].
  cbn [app]. rewrite !sumZ_cons, IH. lia.
Qed.

Lemma sumZ_nonneg (l : list Z) : Forall (fun b => 0 <= b) l -> 0 <= sumZ l.
Proof.
  induction 1 as [|x l Hx _ IH]; [cbn; lia|]. rewrite sumZ_cons. lia.
Qed.

Lemma sumZ_zero (l : list Z) :
  Forall (fun b => 0 <= b) l -> sumZ l = 0 -> forall x, In x l -> x = 0.
Proof.
  induction 1 as [|y l Hy Hl IH]; intros Hsum x Hin; [destruct Hin|].
  rewrite sumZ_cons in Hsum. pose proof (sumZ_nonneg l Hl).
  destruct Hin as [<-|Hin]; [lia|]. apply IH; [lia|exact Hin].
Qed.

Lemma fold_left_add_sumZ (l : list Z) (a : Z) :
  fold_left (fun sum balance => sum + balance) l a = a + sumZ l.
Proof.
  revert a; induction l as [|x l IH]; intros a.
  - cbn. lia.
  - cbn [fold_left]. rewrite IH, sumZ_cons. lia.
Qed.

Lemma sum_values_set (k : string) (v : Z) (m : JsMap.t Z) :
  sumZ (JsMap.values (JsMap.set k v m)) =
  sumZ (JsMap.values m) - match JsMap.get k m with Some b => b | None => 0 end + v.
Proof.
  unfold JsMap.values.
  induction m as [|[k' v'] m IH]; [cbn; lia|].
  cbn [JsMap.set JsMap.get].
  destruct (String.eqb_spec k k') as [->|Hne]; cbn [map snd];
    rewrite !sumZ_cons; lia.
Qed.

(** *** The aggregation by destination *)

Lemma existing_balance (k : string) (m : JsMap.t Z) :
  match JsMap.get k m with
  | Some b => if b =? 0 then 0 else b
  | None => 0
  end = match JsMap.get k m with Some b => b | None => 0 end.
Proof.
  destruct (JsMap.get k m) as [b|]; [|reflexivity].
  destruct (Z.eqb_spec b 0); congruence.
Qed.

Lemma aggregate_total (snapshots : list Snapshot) :
  forall m, sumZ (JsMap.values (fold_left aggregate_step snapshots m)) =
            sumZ (JsMap.values m) + sumZ (map snapshot_balance snapshots).
Proof.
  induction snapshots as [|s l IH]; intros m.
  { cbn [fold_left map]. change (sumZ []) with 0. lia. }
  cbn [fold_left map]. rewrite IH, sumZ_cons. unfold aggregate_step.
  rewrite sum_values_set, existing_balance. lia.
Qed.

(** The total the handler computes is the sum of all claimed balances. *)
Lemma totalClaimedRaw_sum (snapshots : list Snapshot) :
  totalClaimedRaw (aggregatedBalances snapshots) =
  sumZ (map snapshot_balance snapshots).
Proof.
  unfold totalClaimedRaw, aggregatedBalances.
  rewrite fold_left_add_sumZ, aggregate_total. cbn. lia.
Qed.

Lemma aggregate_nonneg (snapshots : list Snapshot) :
  forall m,
    Forall (fun b => 0 <= b) (JsMap.values m) ->
    nonneg_claims snapshots ->
    Forall (fun b => 0 <= b) (JsMap.values (fold_left aggregate_step snapshots m)).
Proof.
  induction snapshots as [|s l IH]; intros m Hm Hl; [assumption|].
  inversion Hl as [|? ? Hs Hl']; subst.
  apply IH; [|assumption].
  rewrite Forall_forall in *. intros x Hx.
  unfold aggregate_step in Hx. apply in_values_set in Hx.
  destruct Hx as [->|Hx]; [|auto].
  rewrite existing_balance.
  destruct (JsMap.get (epix_address s) m) as [b|] eqn:E; [|lia].
  apply get_in_values in E. specialize (Hm _ E). lia.
Qed.

Lemma aggregated_nonneg (snapshots : list Snapshot) :
  nonneg_claims snapshots ->
  Forall (fun b => 0 <= b) (JsMap.values (aggregatedBalances snapshots)).
Proof. intros H. apply aggregate_nonneg; [constructor|exact H]. Qed.

Lemma aggregate_not_nil (snapshots : list Snapshot) :
  forall m, (m <> [] \/ snapshots <> []) ->
            fold_left aggregate_step snapshots m <> [].
Proof.
  induction snapshots as [|s l IH]; intros m H.
  - destruct H; [assumption|congruence].
  - apply IH. left. apply set_not_nil.
Qed.

(** *** The order of the destinations *)

Lemma mem_in (y : string) (l : list string) : mem y l = true <-> In y l.
Proof.
  unfold mem. rewrite existsb_exists. split.
  - intros (x & Hx & E). apply String.eqb_eq in E. now subst.
  - intros H. exists y. split; [assumption|apply String.eqb_refl].
Qed.

Lemma filter_twice {A : Type} (f g : A -> bool) (l : list A) :
  filter f (filter g l) = filter (fun x => g x && f x) l.
Proof.
  induction l as [|x l IH]; simpl; [reflexivity|].
  destruct (g x); simpl; [destruct (f x)|]; rewrite IH; reflexivity.
Qed.

Lemma aggregate_keys (snapshots : list Snapshot) :
  forall m,
    JsMap.keys (fold_left aggregate_step snapshots m) =
    JsMap.keys m ++
    filter (fun y => negb (mem y (JsMap.keys m)))
           (first_occurrences (map epix_address snapshots)).
Proof.
  induction snapshots as [|s l IH]; intros m.
  - cbn. now rewrite app_nil_r.
  - cbn [fold_left map first_occurrences filter]. rewrite IH.
    unfold aggregate_step. rewrite !keys_set.
    destruct (JsMap.get (epix_address s) m) as [b|] eqn:E.
    + apply get_some_in in E. apply mem_in in E. rewrite E. cbn [negb].
      f_equal. rewrite filter_twice. apply filter_ext. intros y.
      destruct (String.eqb_spec y (epix_address s)) as [->|Hne]; cbn.
      * now rewrite E.
      * reflexivity.
    + apply get_none_notin in E.
      assert (Em : mem (epix_address s) (JsMap.keys m) = false).
      { destruct (mem (epix_address s) (JsMap.keys m)) eqn:M; [|reflexivity].
        apply mem_in in M. contradiction. }
      rewrite Em. cbn [negb]. rewrite <- app_assoc. cbn [app]. f_equal. f_equal.
      rewrite filter_twice. apply filter_ext. intros y.
      unfold mem. rewrite existsb_app. cbn [existsb].
      rewrite orb_false_r, negb_orb. apply andb_comm.
Qed.

(** The entries come in the order in which the destinations first occur
    in the table. *)
Lemma aggregated_keys (snapshots : list Snapshot) :
  JsMap.keys (aggregatedBalances snapshots) =
  first_occurrences (map epix_address snapshots).
Proof.
  unfold aggregatedBalances. rewrite aggregate_keys. cbn [JsMap.keys map app].
  induction (first_occurrences (map epix_address snapshots)) as [|a l IH];
    cbn; [reflexivity|f_equal; exact IH].
Qed.

Lemma first_occurrences_in (l : list string) (x : string) :
  In x (first_occurrences l) <-> In x l.
Proof.
  induction l as [|y l IH]; cbn; [tauto|].
  rewrite filter_In, IH. split.
  - intros [H|[H _]]; auto.
  - intros [H|H]; auto.
    destruct (String.eqb_spec x y) as [->|Hne]; [now left|right; split; auto].
Qed.

Lemma first_occurrences_nodup (l : list string) : NoDup (first_occurrences l).
Proof.
  induction l as [|y l IH]; cbn; constructor.
  - rewrite filter_In. intros [_ H]. now rewrite String.eqb_refl in H.
  - now apply NoDup_filter.
Qed.

(** *** The multiplier *)

Lemma bigint_div_scale (a : Z) :
  bigint_div a 100000000 = Normal (Z.quot a 100000000).
Proof. reflexivity. Qed.

Section Multiplier.

Variable target : Z.
Hypothesis target_nonneg : 0 <= target.

Lemma multiplier_under_cap (total : Z) :
  total <= target -> multiplierBigInt target total = Normal 100000000.
Proof.
  intros H. unfold multiplierBigInt.
  destruct (Z.gtb_spec total target); [lia|reflexivity].
Qed.

Lemma multiplier_over_cap (total : Z) :
  target < total ->
  multiplierBigInt target total = Normal (target * 100000000 / total) /\
  0 <= target * 100000000 / total < 100000000 /\
  (target * 100000000 / total) * total <= target * 100000000.
Proof.
  intros H. unfold multiplierBigInt, bigint_div.
  destruct (Z.gtb_spec total target); [|lia].
  destruct (Z.eqb_spec total 0); [lia|].
  rewrite Z.quot_div_nonneg by lia.
  split; [reflexivity|]. split.
  - split; [apply Z.div_pos; lia|apply Z.div_lt_upper_bound; nia].
  - rewrite Z.mul_comm. apply Z.mul_div_le. lia.
Qed.

(** The multiplier never faults and never exceeds the scale. *)
Lemma multiplier_total (total : Z) :
  exists m, multiplierBigInt target total = Normal m /\
            0 <= m <= 100000000 /\
            (0 <= total -> m * total <= target * 100000000).
Proof.
  destruct (Z_le_gt_dec total target) as [Hle|Hgt].
  - exists 100000000. rewrite multiplier_under_cap by assumption.
    repeat split; lia.
  - destruct (multiplier_over_cap total) as (E & B & L); [lia|].
    eexists; repeat split; [exact E|lia|lia|intros _; exact L].
Qed.

End Multiplier.

(** *** Scaling one balance *)

Lemma scaled_nonneg (m o : Z) : 0 <= m -> 0 <= o -> 0 <= scaled m o.
Proof. intros Hm Ho. unfold scaled. apply Z.quot_pos; nia. Qed.

(** On balances that are not negative, BigInt division is the floor. *)
Lemma scaled_floor (m o : Z) :
  0 <= m -> 0 <= o -> scaled m o = o * m / 100000000.
Proof. intros Hm Ho. unfold scaled. apply Z.quot_div_nonneg; nia. Qed.

Lemma scaled_le_original (m o : Z) :
  0 <= m <= 100000000 -> 0 <= o -> scaled m o <= o.
Proof.
  intros Hm Ho. rewrite scaled_floor by lia.
  apply Z.div_le_upper_bound; nia.
Qed.

Lemma scaled_identity (o : Z) : scaled 100000000 o = o.
Proof. unfold scaled. apply Z.quot_mul. lia. Qed.

(** The scaled balances add up to no more than the scaled total. *)
Lemma sum_scaled_bound (m : Z) (l : list (string * Z)) :
  0 <= m -> Forall (fun b => 0 <= b) (map snd l) ->
  0 <= sumZ (map (fun e => scaled m (snd e)) l) /\
  100000000 * sumZ (map (fun e => scaled m (snd e)) l) <= m * sumZ (map snd l).
Proof.
  intros Hm. induction l as [|[k o] l IH]; intros Hl.
  - cbn. lia.
  - cbn [map snd] in Hl. inversion Hl as [|? ? Ho Hl']; subst.
    destruct (IH Hl') as [IH0 IH1].
    pose proof (scaled_nonneg m o Hm Ho).
    assert (100000000 * scaled m o <= o * m).
    { rewrite scaled_floor by lia. apply Z.mul_div_le. lia. }
    cbn [map snd]. rewrite !sumZ_cons. lia.
Qed.

(** *** The loop over the entries *)

Section MapEntries.

Variable target : Z.
Variable multiplier : Z.

(** Every entry but the last is scaled; the last takes what remains of
    the cap when that is positive. *)
Lemma map_entries_snoc (others : list (string * Z)) (k : string) (o : Z) :
  forall total index,
    map_entries target multiplier (index + Z.of_nat (List.length others))
      total index (others ++ [(k, o)]) =
    let before := sumZ (map (fun e => scaled multiplier (snd e)) others) in
    Normal (map (scale_entry multiplier) others ++
              [mkEntry k o (last_final target multiplier total before o)],
            total + before + last_final target multiplier total before o).
Proof.
  induction others as [|[k' o'] rest IH]; intros total index.
  - cbn [List.length app map Z.of_nat map_entries entry_callback].
    rewrite bigint_div_scale. cbn [bind].
    replace (index =? index + 0) with true by (symmetry; apply Z.eqb_eq; lia).
    unfold last_final, scaled. cbn [sumZ fold_right]. rewrite Z.add_0_r.
    reflexivity.
  - cbn [List.length app map_entries entry_callback].
    rewrite bigint_div_scale. cbn [bind].
    replace (index =? index + Z.of_nat (S (List.length rest))) with false
      by (symmetry; apply Z.eqb_neq; lia).
    cbn [fst snd].
    replace (index + Z.of_nat (S (List.length rest)))
      with ((index + 1) + Z.of_nat (List.length rest)) by lia.
    rewrite IH. cbn [bind fst snd map app]. rewrite sumZ_cons.
    unfold last_final. fold (scaled multiplier o').
    replace (total + scaled multiplier o' +
             sumZ (map (fun e : string * Z => scaled multiplier (snd e)) rest))
      with (total + (scaled multiplier o' +
             sumZ (map (fun e : string * Z => scaled multiplier (snd e)) rest)))
      by lia.
    repeat f_equal; lia.
Qed.

Lemma map_entries_total (lastIndex : Z) (entries : list (string * Z)) :
  forall total index, exists r,
    map_entries target multiplier lastIndex total index entries = Normal r.
Proof.
  induction entries as [|[k o] rest IH]; intros total index.
  - eexists. reflexivity.
  - cbn [map_entries entry_callback]. rewrite bigint_div_scale. cbn [bind snd fst].
    match goal with
    | |- context [map_entries target multiplier lastIndex ?t ?i rest] =>
        destruct (IH t i) as [r ->]
    end.
    eexists. reflexivity.
Qed.

End MapEntries.

Lemma TARGET_nonneg : 0 <= TARGET_BALANCE_SATS.
Proof. vm_compute. discriminate. Qed.

Lemma redistribute_empty (target : Z) :
  0 <= target -> redistribute target [] = Normal ([], 0).
Proof.
  intros Ht. unfold redistribute. cbn [aggregatedBalances fold_left].
  rewrite multiplier_under_cap by (cbn; lia). reflexivity.
Qed.

(** The shape of the result on a table that is not empty and holds no
    negative balance: the entries before the last are scaled, the last
    takes the cap minus their sum, and the accumulator ends at the cap. *)
Lemma redistribute_shape (target : Z) (snapshots : list Snapshot) :
  0 <= target -> snapshots <> [] -> nonneg_claims snapshots ->
  exists others k o m,
    aggregatedBalances snapshots = others ++ [(k, o)] /\
    multiplierBigInt target (totalClaimedRaw (aggregatedBalances snapshots))
      = Normal m /\
    0 <= m <= 100000000 /\
    0 <= o /\ Forall (fun b => 0 <= b) (map snd others) /\
    sumZ (map (fun e => scaled m (snd e)) others) + scaled m o <= target /\
    redistribute target snapshots =
      Normal (map (scale_entry m) others ++
                [mkEntry k o
                   (target - sumZ (map (fun e => scaled m (snd e)) others))],
              target).
Proof.
  intros Ht Hne Hnn.
  assert (Hagg : aggregatedBalances snapshots <> [])
    by (apply aggregate_not_nil; right; exact Hne).
  destruct (exists_last Hagg) as (others & [k o] & E).
  pose proof (aggregated_nonneg snapshots Hnn) as Hvals.
  rewrite E in Hvals. unfold JsMap.values in Hvals. rewrite map_app in Hvals.
  apply Forall_app in Hvals. destruct Hvals as [Hothers Hlast].
  inversion Hlast as [|? ? Ho _]; subst. cbn [snd] in Ho.
  set (total := totalClaimedRaw (aggregatedBalances snapshots)).
  assert (Htotal : total = sumZ (map snd others) + o).
  { unfold total, totalClaimedRaw. rewrite fold_left_add_sumZ, E.
    unfold JsMap.values. rewrite map_app, sumZ_app. cbn. lia. }
  destruct (multiplier_total target Ht total) as (m & Em & Bm & Lm).
  pose proof (proj1 (sum_scaled_bound m others (proj1 Bm) Hothers)) as Hs0.
  assert (Hsum : sumZ (map (fun e => scaled m (snd e)) others) + scaled m o
                 <= target).
  { pose proof (sum_scaled_bound m (others ++ [(k, o)]) (proj1 Bm)) as Hb.
    rewrite !map_app, !sumZ_app in Hb. cbn [map snd] in Hb.
    rewrite !sumZ_cons in Hb. cbn [sumZ fold_right] in Hb.
    destruct Hb as [_ Hb].
    { apply Forall_app; split; [exact Hothers|repeat constructor; exact Ho]. }
    pose proof (sumZ_nonneg _ Hothers) as Hpos.
    assert (H0 : 0 <= total) by lia.
    specialize (Lm H0). rewrite Htotal in Lm. lia. }
  exists others, k, o, m. repeat split; try assumption; try lia.
  unfold redistribute. fold total. rewrite Em. cbn [bind]. rewrite E.
  rewrite length_app. cbn [List.length].
  replace (Z.of_nat (List.length others + 1) - 1)
    with (0 + Z.of_nat (List.length others)) by lia.
  rewrite map_entries_snoc. cbv zeta.
  assert (Hlast_final :
    last_final target m 0 (sumZ (map (fun e => scaled m (snd e)) others)) o =
    target - sumZ (map (fun e => scaled m (snd e)) others)).
  { unfold last_final. cbn [Z.add].
    destruct (Z.gtb_spec (target - sumZ (map (fun e => scaled m (snd e)) others)) 0);
      [reflexivity|].
    pose proof (scaled_nonneg m o (proj1 Bm) Ho). lia. }
  rewrite Hlast_final. repeat f_equal. lia.
Qed.

Lemma shape_addresses (m : Z) (others : list (string * Z)) (k : string) (o f : Z) :
  map epixAddress (map (scale_entry m) others ++ [mkEntry k o f]) =
  JsMap.keys (others ++ [(k, o)]).
Proof. unfold JsMap.keys. rewrite !map_app, map_map. reflexivity. Qed.

Lemma shape_finals (m : Z) (others : list (string * Z)) :
  map finalBalance (map (scale_entry m) others) =
  map (fun e => scaled m (snd e)) others.
Proof. rewrite map_map. reflexivity. Qed.

Lemma in_scale_entry (m : Z) (others : list (string * Z)) (e : Entry) :
  In e (map (scale_entry m) others) ->
  finalBalance e = scaled m (originalBalance e) /\
  In (originalBalance e) (map snd others).
Proof.
  rewrite in_map_iff. intros ((k & o) & <- & Hin). cbn. split; [reflexivity|].
  apply in_map_iff. exists (k, o). auto.
Qed.

Lemma sequence_total {A B : Type} (f : A -> completion B) (l : list A) :
  (forall a, exists b, f a = Normal b) ->
  exists bs, sequence (map f l) = Normal bs.
Proof.
  intros Hf. induction l as [|a l [bs IH]]; cbn.
  - eexists. reflexivity.
  - destruct (Hf a) as [b ->]. rewrite IH. eexists. reflexivity.
Qed.

(** The handler answers 200 on every table: no division faults. *)
Lemma download_csv_never_faults (detailed : bool) (snapshots : list Snapshot) :
  fst (download_csv detailed snapshots) = 200.
Proof.
  unfold download_csv, csvContent, download_csv_balances, redistribute.
  destruct (multiplier_total TARGET_BALANCE_SATS TARGET_nonneg
              (totalClaimedRaw (aggregatedBalances snapshots))) as (m & -> & _).
  cbn [bind].
  match goal with
  | |- context [map_entries ?t ?mm ?li ?tot ?i ?es] =>
      destruct (map_entries_total t mm li es tot i) as [r ->]
  end.
  cbn [bind]. destruct detailed.
  - destruct (sequence_total (detailed_rows m (aggregatedDetails snapshots)) (fst r))
      as [rows ->]; [|reflexivity].
    intros e. unfold detailed_rows.
    destruct (sequence_total (detailed_fields m e)
                match JsMap.get (epixAddress e) (aggregatedDetails snapshots) with
                | Some ds => ds
                | None => []
                end) as [fs ->]; [|eexists; reflexivity].
    intros d. eexists. reflexivity.
  - destruct (sequence_total compact_row (fst r)) as [rows ->]; [|reflexivity].
    intros e. eexists. reflexivity.
Qed.

(** *** Conservation *)

(** C1.  On every table that is not empty, holds no negative balance and
    has a positive total, the handler produces one entry per distinct
    destination address, the final balances add up to
    [TARGET_BALANCE_SATS] exactly, and the last entry in processing
    order holds [TARGET_BALANCE_SATS] minus the sum of the other final
    balances. *)
Theorem download_csv_conservation (snapshots : list Snapshot) :
  snapshots <> [] ->
  nonneg_claims snapshots ->
  0 < totalClaimedRaw (aggregatedBalances snapshots) ->
  exists others last,
    download_csv_balances snapshots =
      Normal (others ++ [last], TARGET_BALANCE_SATS) /\
    NoDup (map epixAddress (others ++ [last])) /\
    (forall a, In a (map epixAddress (others ++ [last])) <->
               In a (map epix_address snapshots)) /\
    sum_final (others ++ [last]) = TARGET_BALANCE_SATS /\
    finalBalance last = TARGET_BALANCE_SATS - sum_final others.
Proof.
  intros Hne Hnn _.
  destruct (redistribute_shape TARGET_BALANCE_SATS snapshots TARGET_nonneg Hne Hnn)
    as (others & k & o & m & E & _ & _ & _ & _ & _ & R).
  eexists; eexists. split; [exact R|].
  rewrite shape_addresses, <- E, aggregated_keys.
  split; [apply first_occurrences_nodup|].
  split; [intros a; apply first_occurrences_in|].
  unfold sum_final. rewrite map_app, sumZ_app, shape_finals.
  cbn [map finalBalance]. rewrite sumZ_cons. change (sumZ []) with 0.
  split; lia.
Qed.

Lemma download_csv_conservation_witness :
  exists others last,
    download_csv_balances [claimA; claimB] =
      Normal (others ++ [last], TARGET_BALANCE_SATS) /\
    NoDup (map epixAddress (others ++ [last])) /\
    (forall a, In a (map epixAddress (others ++ [last])) <->
               In a (map epix_address [claimA; claimB])) /\
    sum_final (others ++ [last]) = TARGET_BALANCE_SATS /\
    finalBalance last = TARGET_BALANCE_SATS - sum_final others.
Proof.
  apply (download_csv_conservation [claimA; claimB]).
  - discriminate.
  - repeat constructor; discriminate.
  - vm_compute. reflexivity.
Defined.

(** *** Under the cap *)

(** C2, as the specification states it, fails: on a table whose only
    claim has balance 0 the total is under the cap and the multiplier is
    the scale, yet the only destination is the last entry and receives the
    whole cap, not its original balance 0. *)
Lemma under_cap_last_entry_differs_from_original :
  totalClaimedRaw (aggregatedBalances [claimZero]) <= TARGET_BALANCE_SATS /\
  multiplierBigInt TARGET_BALANCE_SATS
    (totalClaimedRaw (aggregatedBalances [claimZero])) = Normal 100000000 /\
  download_csv_balances [claimZero] =
    Normal ([mkEntry "A" 0 1184476900000000], 1184476900000000) /\
  ~ (forall e entries total,
       download_csv_balances [claimZero] = Normal (entries, total) ->
       In e entries -> finalBalance e = originalBalance e).
Proof.
  split; [vm_compute; discriminate|].
  split; [reflexivity|]. split; [reflexivity|].
  intros H.
  specialize (H (mkEntry "A" 0 1184476900000000) _ _ eq_refl (or_introl eq_refl)).
  discriminate H.
Qed.

(** C2, amended.  On every table that holds no negative balance and
    whose total is at most the cap, the multiplier is the scale
    [100000000] and nothing faults; every entry but the last in
    processing order keeps its original balance; the last entry receives
    the cap minus the original balances of the others, which is at least
    its own original balance.  When all balances are 0, every entry but
    the last has final balance 0. *)
Theorem under_cap_full_balance_except_last (snapshots : list Snapshot) :
  nonneg_claims snapshots ->
  totalClaimedRaw (aggregatedBalances snapshots) <= TARGET_BALANCE_SATS ->
  multiplierBigInt TARGET_BALANCE_SATS
    (totalClaimedRaw (aggregatedBalances snapshots)) = Normal 100000000 /\
  exists entries totalFinalBalance,
    download_csv_balances snapshots = Normal (entries, totalFinalBalance) /\
    (forall e, In e (removelast entries) -> finalBalance e = originalBalance e) /\
    (forall others last, entries = others ++ [last] ->
       finalBalance last =
         TARGET_BALANCE_SATS - sumZ (map originalBalance others) /\
       originalBalance last <= finalBalance last) /\
    (Forall (fun s => snapshot_balance s = 0) snapshots ->
     forall e, In e (removelast entries) -> finalBalance e = 0).
Proof.
  intros Hnn Hle.
  pose proof (multiplier_under_cap _ _ Hle) as Em. split; [exact Em|].
  destruct snapshots as [|s l].
  { exists [], 0. split; [reflexivity|]. split; [intros e []|].
    split; [|intros _ e []].
    intros others last H. destruct others; discriminate. }
  destruct (redistribute_shape TARGET_BALANCE_SATS (s :: l) TARGET_nonneg) as
      (others & k & o & m & E & Em' & Bm & Ho & Hothers & Hsum & R);
      [discriminate|exact Hnn|].
  rewrite Em in Em'. injection Em' as <-.
  assert (Hfull : forall e, In e (map (scale_entry 100000000) others) ->
                            finalBalance e = originalBalance e).
  { intros e He. apply in_scale_entry in He. destruct He as [-> _].
    apply scaled_identity. }
  assert (Hsame : map (fun e => scaled 100000000 (snd e)) others =
                  map originalBalance (map (scale_entry 100000000) others)).
  { rewrite map_map. apply map_ext. intros [k' o']. apply scaled_identity. }
  eexists; eexists. split; [exact R|].
  split; [intros e He; rewrite removelast_last in He; auto|].
  split.
  - intros others' last' H. apply app_inj_tail in H. destruct H as [<- <-].
    cbn [finalBalance originalBalance]. rewrite Hsame in *.
    rewrite scaled_identity in Hsum. split; [reflexivity|lia].
  - intros Hzero e He. rewrite removelast_last in He.
    pose proof (in_scale_entry _ _ _ He) as [_ Hin].
    rewrite (Hfull e He).
    assert (Htot : totalClaimedRaw (aggregatedBalances (s :: l)) = 0).
    { rewrite totalClaimedRaw_sum. clear -Hzero.
      induction Hzero as [|x xs Hx _ IH]; [reflexivity|].
      cbn [map]. rewrite sumZ_cons. lia. }
    unfold totalClaimedRaw in Htot. rewrite fold_left_add_sumZ, E in Htot.
    unfold JsMap.values in Htot. rewrite map_app, sumZ_app in Htot.
    cbn [map snd] in Htot. rewrite sumZ_cons in Htot.
    change (sumZ []) with 0 in Htot.
    pose proof (sumZ_nonneg _ Hothers) as Hpos.
    apply (sumZ_zero _ Hothers); [lia|exact Hin].
Qed.

Lemma under_cap_full_balance_except_last_witness :
  multiplierBigInt TARGET_BALANCE_SATS
    (totalClaimedRaw (aggregatedBalances [claimA; claimB])) = Normal 100000000 /\
  exists entries totalFinalBalance,
    download_csv_balances [claimA; claimB] = Normal (entries, totalFinalBalance) /\
    (forall e, In e (removelast entries) -> finalBalance e = originalBalance e) /\
    (forall others last, entries = others ++ [last] ->
       finalBalance last =
         TARGET_BALANCE_SATS - sumZ (map originalBalance others) /\
       originalBalance last <= finalBalance last) /\
    (Forall (fun s => snapshot_balance s = 0) [claimA; claimB] ->
     forall e, In e (removelast entries) -> finalBalance e = 0).
Proof.
  apply (under_cap_full_balance_except_last [claimA; claimB]).
  - repeat constructor; discriminate.
  - vm_compute. discriminate.
Defined.

(** *** Over the cap *)

(** C3.  On every table that holds no negative balance and whose total
    exceeds the cap, the multiplier is the BigInt quotient
    [target * 100000000 / total], equal to the floor of that ratio, and
    every entry but the last has final balance
    [floor (originalBalance * multiplier / 100000000)].  With cap
    500,000,000 and the claims A: 300,000,000 and B: 700,000,000 the
    multiplier is 50,000,000, A receives 150,000,000 and the last entry B
    receives 350,000,000; the two add up to 500,000,000. *)
Theorem multiplier_is_floor_of_scaled_ratio (target : Z) (snapshots : list Snapshot) :
  0 <= target ->
  nonneg_claims snapshots ->
  target < totalClaimedRaw (aggregatedBalances snapshots) ->
  let total := totalClaimedRaw (aggregatedBalances snapshots) in
  let m := target * 100000000 / total in
  (multiplierBigInt target total = bigint_div (target * 100000000) total /\
   multiplierBigInt target total = Normal m /\
   exists entries totalFinalBalance,
     redistribute target snapshots = Normal (entries, totalFinalBalance) /\
     forall e, In e (removelast entries) ->
       finalBalance e = originalBalance e * m / 100000000) /\
  (multiplierBigInt 500000000
     (totalClaimedRaw (aggregatedBalances [claimA; claimB])) = Normal 50000000 /\
   redistribute 500000000 [claimA; claimB] =
     Normal ([mkEntry "A" 300000000 150000000; mkEntry "B" 700000000 350000000],
             500000000) /\
   150000000 + 350000000 = 500000000).
Proof.
  intros Ht Hnn Hgt total m. split; [|vm_compute; repeat split; reflexivity].
  destruct (multiplier_over_cap target Ht total Hgt) as (Em & Bm & _).
  split.
  { unfold multiplierBigInt. fold total.
    destruct (Z.gtb_spec total target); [reflexivity|lia]. }
  split; [exact Em|].
  destruct snapshots as [|s l].
  { vm_compute in Hgt. destruct target; discriminate || lia. }
  destruct (redistribute_shape target (s :: l) Ht) as
      (others & k & o & m' & E & Em' & Bm' & Ho & Hothers & _ & R);
      [discriminate|exact Hnn|].
  fold total in Em'. rewrite Em in Em'. injection Em' as <-.
  eexists; eexists; split; [exact R|].
  intros e He. rewrite removelast_last in He.
  apply in_scale_entry in He. destruct He as [Hf Hin].
  rewrite Forall_forall in Hothers. specialize (Hothers _ Hin).
  rewrite Hf. apply scaled_floor; fold m; lia.
Qed.

Lemma multiplier_is_floor_of_scaled_ratio_witness :
  multiplierBigInt 500000000 (totalClaimedRaw (aggregatedBalances [claimA; claimB]))
    = Normal (500000000 * 100000000 / 1000000000) /\
  exists entries totalFinalBalance,
    redistribute 500000000 [claimA; claimB] = Normal (entries, totalFinalBalance) /\
    forall e, In e (removelast entries) ->
      finalBalance e =
        originalBalance e * (500000000 * 100000000 / 1000000000) / 100000000.
Proof.
  assert (H0 : 0 <= 500000000) by discriminate.
  assert (H1 : nonneg_claims [claimA; claimB]) by (repeat constructor; discriminate).
  assert (H2 : 500000000 < totalClaimedRaw (aggregatedBalances [claimA; claimB]))
    by reflexivity.
  pose proof (multiplier_is_floor_of_scaled_ratio 500000000 [claimA; claimB] H0 H1 H2)
    as [(_ & Hm & Hentries) _].
  split; [exact Hm|exact Hentries].
Defined.

(** C10.  On every table that holds no negative balance, the multiplier
    is at most the scale: equal to it when the total is at most the cap,
    below it otherwise; and every entry but the last has final balance
    [floor (originalBalance * multiplier / 100000000)], which is at most
    its original balance. *)
Theorem non_last_final_at_most_original (snapshots : list Snapshot) :
  nonneg_claims snapshots ->
  let total := totalClaimedRaw (aggregatedBalances snapshots) in
  exists m entries totalFinalBalance,
    multiplierBigInt TARGET_BALANCE_SATS total = Normal m /\
    m <= 100000000 /\
    (total <= TARGET_BALANCE_SATS -> m = 100000000) /\
    (TARGET_BALANCE_SATS < total -> m < 100000000) /\
    download_csv_balances snapshots = Normal (entries, totalFinalBalance) /\
    forall e, In e (removelast entries) ->
      finalBalance e = originalBalance e * m / 100000000 /\
      finalBalance e <= originalBalance e.
Proof.
  intros Hnn total. subst total.
  destruct snapshots as [|s l].
  - exists 100000000, [], 0.
    split; [reflexivity|]. split; [lia|]. split; [reflexivity|].
    split; [intros H; vm_compute in H; discriminate|].
    split; [reflexivity|intros e []].
  - destruct (redistribute_shape TARGET_BALANCE_SATS (s :: l) TARGET_nonneg) as
      (others & k & o & m & E & Em & Bm & Ho & Hothers & _ & R);
      [discriminate|exact Hnn|].
    exists m. eexists. eexists. split; [exact Em|]. split; [lia|].
    split.
    { intros Hle. rewrite (multiplier_under_cap _ _ Hle) in Em. congruence. }
    split.
    { intros Hgt.
      destruct (multiplier_over_cap _ TARGET_nonneg _ Hgt) as (E' & B' & _).
      rewrite E' in Em. destruct B' as [_ B'].
      assert (Hm : TARGET_BALANCE_SATS * 100000000 /
                   totalClaimedRaw (aggregatedBalances (s :: l)) = m) by congruence.
      rewrite <- Hm. exact B'. }
    split; [exact R|].
    intros e He. rewrite removelast_last in He.
    apply in_scale_entry in He. destruct He as [Hf Hin].
    rewrite Forall_forall in Hothers. specialize (Hothers _ Hin).
    rewrite Hf. split.
    + apply scaled_floor; lia.
    + apply scaled_le_original; lia.
Qed.

Lemma non_last_final_at_most_original_witness :
  let total := totalClaimedRaw (aggregatedBalances [claimA; claimB]) in
  exists m entries totalFinalBalance,
    multiplierBigInt TARGET_BALANCE_SATS total = Normal m /\
    m <= 100000000 /\
    (total <= TARGET_BALANCE_SATS -> m = 100000000) /\
    (TARGET_BALANCE_SATS < total -> m < 100000000) /\
    download_csv_balances [claimA; claimB] = Normal (entries, totalFinalBalance) /\
    forall e, In e (removelast entries) ->
      finalBalance e = originalBalance e * m / 100000000 /\
      finalBalance e <= originalBalance e.
Proof.
  apply (non_last_final_at_most_original [claimA; claimB]).
  repeat constructor; discriminate.
Defined.

(** *** Which destination takes the remainder *)

(** C4, as the specification states it, fails: with the claims for
    destination b stored before those for destination a, the entries are
    processed in that order, a is the last entry and takes the remainder,
    while the last address in lexical order is b.  The same two claims
    stored in the other order give the remainder to b. *)
Lemma remainder_not_to_lexically_last_address :
  download_csv_balances [claim_b; claim_a] =
    Normal ([mkEntry "b" 10 10; mkEntry "a" 10 1184476899999990],
            1184476900000000) /\
  lexical_last (map epix_address [claim_b; claim_a]) = Some "b" /\
  download_csv_balances [claim_a; claim_b] =
    Normal ([mkEntry "a" 10 10; mkEntry "b" 10 1184476899999990],
            1184476900000000) /\
  ~ (forall entries total others last,
       download_csv_balances [claim_b; claim_a] = Normal (entries, total) ->
       entries = others ++ [last] ->
       lexical_last (map epix_address [claim_b; claim_a]) = Some (epixAddress last)).
Proof.
  split; [reflexivity|]. split; [reflexivity|]. split; [reflexivity|].
  intros H.
  specialize (H _ _ [mkEntry "b" 10 10] (mkEntry "a" 10 1184476899999990)
                eq_refl eq_refl).
  discriminate H.
Qed.

(** C4, amended.  The entries are processed in the order in which the
    destination addresses first occur in the table read by ascending id,
    and the destination that takes the remainder is the last in that
    order.  The result is a function of that list of rows, so two runs
    over the same rows give the same entries. *)
Theorem remainder_to_last_inserted_address (snapshots : list Snapshot) :
  snapshots <> [] ->
  nonneg_claims snapshots ->
  exists others last,
    download_csv_balances snapshots =
      Normal (others ++ [last], TARGET_BALANCE_SATS) /\
    map epixAddress (others ++ [last]) =
      first_occurrences (map epix_address snapshots) /\
    finalBalance last = TARGET_BALANCE_SATS - sum_final others.
Proof.
  intros Hne Hnn.
  destruct (redistribute_shape TARGET_BALANCE_SATS snapshots TARGET_nonneg Hne Hnn)
    as (others & k & o & m & E & _ & _ & _ & _ & _ & R).
  eexists; eexists. split; [exact R|].
  rewrite shape_addresses, <- E, aggregated_keys. split; [reflexivity|].
  unfold sum_final. rewrite shape_finals. reflexivity.
Qed.

Lemma remainder_to_last_inserted_address_witness :
  exists others last,
    download_csv_balances [claim_b; claim_a] =
      Normal (others ++ [last], TARGET_BALANCE_SATS) /\
    map epixAddress (others ++ [last]) =
      first_occurrences (map epix_address [claim_b; claim_a]) /\
    finalBalance last = TARGET_BALANCE_SATS - sum_final others.
Proof.
  apply (remainder_to_last_inserted_address [claim_b; claim_a]).
  - discriminate.
  - repeat constructor; discriminate.
Defined.

End RedistributionProofs.

(** ** The CSV escaper *)

Module CsvProofs.

Import Csv.

Lemma string_app_assoc (a b c : string) :
  ((a ++ b) ++ c = a ++ (b ++ c))%string.
Proof. induction a as [|x a IH]; cbn; [reflexivity|now rewrite IH]. Qed.

Lemma string_app_nil_r (a : string) : (a ++ "")%string = a.
Proof. induction a as [|x a IH]; cbn; [reflexivity|now rewrite IH]. Qed.

(** Outside quotes, the end of a field is read in the same way whatever
    came before. *)
Lemma parse_field_end (st : pstate) (field : string) (record : list string)
    (records : list (list string)) (rest : string) :
  st <> Quoted -> field_end rest ->
  parse_from st field record records rest =
  parse_from QuoteSeen field record records rest.
Proof.
  intros Hst Hend. destruct rest as [|c rest]; cbn.
  - reflexivity.
  - destruct Hend as [-> | ->]; destruct st; cbn; congruence.
Qed.

Lemma includes_false_cons (c x : ascii) (s : string) :
  includes c (String x s) = false -> Ascii.eqb x c = false /\ includes c s = false.
Proof. cbn. apply orb_false_elim. Qed.

(** A field written without quotes is read back character by character. *)
Lemma parse_unquoted (s : string) :
  includes comma s = false -> includes dquote s = false ->
  includes LF s = false -> includes CR s = false ->
  forall st field record records rest,
    st = FieldStart \/ st = Unquoted ->
    field_end rest ->
    parse_from st field record records (s ++ rest)%string =
    parse_from QuoteSeen (field ++ s)%string record records rest.
Proof.
  induction s as [|x s IH]; intros Hc Hq Hl Hr st field record records rest Hst Hend.
  - cbn [append]. rewrite string_app_nil_r. apply parse_field_end; [|exact Hend].
    destruct Hst; subst; discriminate.
  - apply includes_false_cons in Hc, Hq, Hl, Hr.
    destruct Hc as [Hc Hc'], Hq as [Hq Hq'], Hl as [Hl Hl'], Hr as [Hr Hr'].
    cbn [append parse_from].
    destruct Hst; subst st; rewrite Hc, Hl, Hr, Hq;
      rewrite (IH Hc' Hq' Hl' Hr') by auto;
      rewrite string_app_assoc; reflexivity.
Qed.

(** Inside quotes every character is kept and a doubled quote reads as
    one, up to the closing quote. *)
Lemma parse_quoted (s : string) :
  forall field record records rest,
    field_end rest ->
    parse_from Quoted field record records
      (double_quotes s ++ String dquote rest)%string =
    parse_from QuoteSeen (field ++ s)%string record records rest.
Proof.
  induction s as [|x s IH]; intros field record records rest Hend.
  - cbn. now rewrite string_app_nil_r.
  - cbn [double_quotes]. destruct (Ascii.eqb_spec x dquote) as [->|Hne].
    + cbn [append parse_from]. cbn [Ascii.eqb dquote comma LF CR Bool.eqb].
      cbn. rewrite IH by exact Hend. now rewrite string_app_assoc.
    + cbn [append parse_from].
      destruct (Ascii.eqb_spec x dquote) as [|_]; [contradiction|].
      rewrite IH by exact Hend. now rewrite string_app_assoc.
Qed.

Lemma parse_escaped_field (s : string) (record : list string)
    (records : list (list string)) (rest : string) :
  field_end rest ->
  parse_from FieldStart "" record records (escapeCsvField (Some s) ++ rest)%string =
  parse_from QuoteSeen s record records rest.
Proof.
  intros Hend. unfold escapeCsvField.
  destruct (includes comma s) eqn:Hc; [|destruct (includes dquote s) eqn:Hq;
    [|destruct (includes LF s) eqn:Hl; [|destruct (includes CR s) eqn:Hr]]];
    cbn [orb].
  5: { rewrite (parse_unquoted s Hc Hq Hl Hr) by auto. reflexivity. }
  all: cbn [append]; rewrite string_app_assoc; cbn [append parse_from];
       change (Ascii.eqb dquote comma) with false;
       change (Ascii.eqb dquote LF) with false;
       change (Ascii.eqb dquote CR) with false;
       change (Ascii.eqb dquote dquote) with true; cbn iota;
       rewrite parse_quoted by exact Hend; reflexivity.
Qed.

Lemma join_cons2 (sep : ascii) (x y : string) (l : list string) :
  join sep (x :: y :: l) = (x ++ String sep (join sep (y :: l)))%string.
Proof. reflexivity. Qed.

(** A record is read back field by field. *)
Lemma parse_row (fields : list string) :
  fields <> [] ->
  forall record records rest,
    field_end rest ->
    parse_from FieldStart "" record records (row_text fields ++ rest)%string =
    parse_from QuoteSeen (last fields "") (record ++ removelast fields) records rest.
Proof.
  induction fields as [|f fs IH]; intros Hne record records rest Hend;
    [congruence|].
  destruct fs as [|g fs].
  - unfold row_text. cbn [map join String.concat removelast last].
    rewrite app_nil_r. apply parse_escaped_field. exact Hend.
  - unfold row_text. cbn [map]. rewrite join_cons2, string_app_assoc.
    unfold escape at 1. rewrite parse_escaped_field by (cbn; auto).
    cbn [append parse_from].
    change (Ascii.eqb comma comma) with true. cbn iota.
    fold (row_text (g :: fs)). rewrite IH by (discriminate || exact Hend).
    cbn [last removelast]. rewrite <- app_assoc. reflexivity.
Qed.

(** A table is read back record by record. *)
Lemma parse_rows (rows : list (list string)) :
  rows <> [] -> Forall (fun row => row <> []) rows ->
  forall records,
    parse_from FieldStart "" [] records (csv_text rows) = records ++ rows.
Proof.
  induction rows as [|row rows IH]; intros Hne Hall records; [congruence|].
  inversion Hall as [|? ? Hrow Hrows]; subst.
  destruct rows as [|row2 rows].
  - unfold csv_text. cbn [map join String.concat].
    rewrite <- (string_app_nil_r (row_text row)).
    rewrite parse_row by (assumption || exact I).
    cbn [parse_from app]. rewrite <- app_removelast_last by assumption.
    reflexivity.
  - unfold csv_text. cbn [map]. rewrite join_cons2.
    rewrite parse_row by (assumption || (cbn; auto)).
    cbn [parse_from app].
    change (Ascii.eqb LF comma) with false.
    change (Ascii.eqb LF LF) with true. cbn iota.
    rewrite <- app_removelast_last by assumption.
    fold (csv_text (row2 :: rows)).
    rewrite IH by (discriminate || assumption).
    rewrite <- app_assoc. reflexivity.
Qed.

Lemma includes_existsb (c : ascii) (s : string) :
  includes c s = existsb (fun x => Ascii.eqb x c) (list_ascii_of_string s).
Proof. induction s as [|x s IH]; cbn; [reflexivity|now rewrite IH]. Qed.

Lemma needs_quotes_includes (s : string) :
  needs_quotes s =
  includes comma s || includes dquote s || includes LF s || includes CR s.
Proof.
  unfold needs_quotes. rewrite !includes_existsb.
  induction (list_ascii_of_string s) as [|x l IH]; cbn; [reflexivity|].
  rewrite IH.
  destruct (Ascii.eqb x comma), (Ascii.eqb x dquote), (Ascii.eqb x LF),
    (Ascii.eqb x CR); cbn; try reflexivity;
  repeat match goal with
         | |- context [existsb ?f l] => destruct (existsb f l)
         end; reflexivity.
Qed.

Lemma double_quotes_doubled (s : string) : double_quotes s = doubled s.
Proof.
  unfold doubled. induction s as [|x s IH]; cbn; [reflexivity|].
  destruct (Ascii.eqb x dquote); cbn; now rewrite IH.
Qed.

(** C8.  A field that is [null] or [undefined] is written as the empty
    text.  A field that holds a comma, a double quote or a newline
    character (line feed or carriage return) is written between double
    quotes with every double quote of it written twice; any other field
    is written unchanged.  Reading the written text back gives the field:
    for one field, for a table of records, and for the detailed export of
    a claim whose raw payload holds a comma and double quotes. *)
Theorem escapeCsvField_quotes_and_round_trips :
  escapeCsvField None = "" /\
  (forall s, needs_quotes s = true ->
             escapeCsvField (Some s) =
             String dquote (doubled s ++ String dquote "")%string) /\
  (forall s, needs_quotes s = false -> escapeCsvField (Some s) = s) /\
  (forall s, parse_csv (escapeCsvField (Some s)) = [[s]]) /\
  (forall rows, rows <> [] -> Forall (fun row => row <> []) rows ->
                parse_csv (csv_text rows) = rows) /\
  parse_csv (snd (Redistribution.download_csv true [Redistribution.claimQ])) =
    [ Redistribution.detailed_headers;
      [ "epix1q"; "xQ"; "250000000"; "11844769.00000000"; "-1184476650000000";
        "0%"; "sigQ"; payload_with_comma_and_quote ] ].
Proof.
  split; [reflexivity|]. split; [|split; [|split; [|split]]].
  - intros s H. unfold escapeCsvField. rewrite needs_quotes_includes in H.
    rewrite H, double_quotes_doubled. reflexivity.
  - intros s H. unfold escapeCsvField. rewrite needs_quotes_includes in H.
    rewrite H. reflexivity.
  - intros s. unfold parse_csv.
    rewrite <- (string_app_nil_r (escapeCsvField (Some s))).
    rewrite parse_escaped_field by exact I. reflexivity.
  - intros rows Hne Hall. unfold parse_csv. now rewrite parse_rows.
  - vm_compute. reflexivity.
Qed.

Lemma escapeCsvField_quotes_and_round_trips_witness :
  needs_quotes payload_with_comma_and_quote = true /\
  parse_csv (escapeCsvField (Some payload_with_comma_and_quote)) =
    [[payload_with_comma_and_quote]].
Proof.
  split; [reflexivity|].
  apply (proj1 (proj2 (proj2 (proj2 escapeCsvField_quotes_and_round_trips)))).
Defined.

End CsvProofs.

(** ** The handler of POST /verify-snapshot *)

Module VerifyProofs.

Import Verify.

Section Handler.

Variable StringToNumber : string -> option Z.

Abbreviation handle_request := (Verify.handle_request StringToNumber).
Abbreviation pipeline := (Verify.pipeline StringToNumber).
Abbreviation checks := (Verify.checks StringToNumber).
Abbreviation calls_performed := (Verify.calls_performed StringToNumber).

(** The handler does what the sequence of checks calls for: same table
    afterwards, same response, and the calls of the checks it went
    through, in their order. *)
Lemma handle_request_refines (w : world) (st : store) (req : request) :
  fst (handle_request w st req) = snd (pipeline w st req) /\
  response_of (snd (handle_request w st req)) = Some (fst (pipeline w st req)) /\
  filter is_check_call (snd (handle_request w st req)) = calls_performed w st req.
Proof.
  unfold Verify.handle_request, Verify.pipeline, Verify.calls_performed,
    verify_snapshot, Verify.checks,
    missing_signature_check, snapshot_height_check, claim_deadline_check,
    duplicate_address_check, balance_check, signature_check.
  destruct req as [sig x42 epix bal json]. cbn.
  destruct sig as [[|c sig]|]; cbn; try (repeat split; reflexivity).
  destruct w as [tip now ffault bals ver cfault url post]; cbn.
  destruct tip as [[|h]|e]; cbn; try (repeat split; reflexivity).
  destruct (truthy h); cbn; try (repeat split; reflexivity).
  destruct (loose_eq_number StringToNumber h snapshotHeight); cbn;
    try (repeat split; reflexivity).
  destruct (now >? claimDeadline); cbn; try (repeat split; reflexivity).
  destruct ffault; cbn; try (repeat split; reflexivity).
  destruct (findOne x42 st); cbn; try (repeat split; reflexivity).
  destruct (bals x42) as [[b|]|e]; cbn; try (repeat split; reflexivity).
  destruct (strict_eq b bal); cbn; try (repeat split; reflexivity).
  destruct (ver (String c sig) x42 json) as [v|e]; cbn;
    try (repeat split; reflexivity).
  destruct (strict_eq v (JStr "True")); cbn; try (repeat split; reflexivity).
  destruct cfault; cbn; try (repeat split; reflexivity).
  unfold sendSnapshotVerificationNotification; cbn.
  destruct url; cbn; [destruct post; cbn|]; repeat split; reflexivity.
Qed.

Lemma handle_request_response (w : world) (st : store) (req : request) :
  response_of (snd (handle_request w st req)) = Some (fst (pipeline w st req)).
Proof. apply handle_request_refines. Qed.

Lemma pipeline_status (w : world) (st : store) (req : request) :
  match first_failing checks w st req with
  | Reject _ => status (fst (pipeline w st req)) = 400
  | Fault => status (fst (pipeline w st req)) = 500
  | Pass => if db_create_fault w
            then status (fst (pipeline w st req)) = 500
            else status (fst (pipeline w st req)) = 200
  end.
Proof.
  unfold Verify.pipeline.
  destruct (first_failing checks w st req); [destruct (db_create_fault w)| |];
    reflexivity.
Qed.

(** The signature check rejects for its own reasons only. *)
Lemma signature_check_reason (w : world) (st : store) (req : request) :
  signature_check w st req <> Reject "Balance verification failed".
Proof.
  unfold signature_check.
  destruct (header_signature req); [|discriminate].
  destruct (chain_verifymessage w _ _ _); [|discriminate].
  destruct (strict_eq _ _); discriminate.
Qed.

(** C5.  The handler reports the outcome of the first check that does
    not pass, in the order missing signature, snapshot height, claim
    deadline, duplicate address, balance, signature, and makes the calls
    of the checks up to that one and no other.  A request without a
    signature is answered 400 with the reason that a signature is
    required and nothing else happens: no call to the chain node.  When
    the first four checks pass and the node returns a balance, the
    response is the balance rejection exactly when that balance is not
    strictly equal to the claimed one. *)
Theorem verify_snapshot_reports_first_failing_check
    (w : world) (st : store) (req : request) :
  (response_of (snd (handle_request w st req)) = Some (fst (pipeline w st req)) /\
   fst (handle_request w st req) = snd (pipeline w st req)) /\
  filter is_check_call (snd (handle_request w st req)) = calls_performed w st req /\
  (header_signature req = None \/ header_signature req = Some "" ->
   handle_request w st req =
     (st, [EvSend (mkResponse 400 (ErrorBody "Signature is required"))]) /\
   existsb is_chain_call (snd (handle_request w st req)) = false) /\
  (forall balance,
     first_failing [ missing_signature_check;
                     snapshot_height_check StringToNumber;
                     claim_deadline_check;
                     duplicate_address_check ] w st req = Pass ->
     chain_balances w (body_x42_address req) = Normal (Some balance) ->
     (response_of (snd (handle_request w st req)) =
        Some (mkResponse 400 (ErrorBody "Balance verification failed")) <->
      strict_eq balance (body_snapshot_balance req) = false)).
Proof.
  destruct (handle_request_refines w st req) as (Hst & Hresp & Hcalls).
  split; [split; assumption|]. split; [assumption|]. split.
  - intros H. unfold Verify.handle_request, verify_snapshot.
    destruct H as [-> | ->]; split; reflexivity.
  - intros balance Hpass Hbal. rewrite Hresp.
    unfold Verify.pipeline, Verify.checks.
    cbn [first_failing] in Hpass |- *.
    destruct (missing_signature_check w st req); try discriminate.
    destruct (snapshot_height_check StringToNumber w st req); try discriminate.
    destruct (claim_deadline_check w st req); try discriminate.
    destruct (duplicate_address_check w st req); try discriminate.
    unfold balance_check. rewrite Hbal.
    destruct (strict_eq balance (body_snapshot_balance req)).
    + split; [|discriminate].
      pose proof (signature_check_reason w st req) as Hreason.
      destruct (signature_check w st req) as [|reason|];
        [destruct (db_create_fault w)| |]; cbn; intros H; inversion H.
      subst reason. contradiction.
    + split; reflexivity.
Qed.

(** C6, amended.  Every request gets a response with status 200, 400 or
    500.  The status is 400 exactly when the first check that does not
    pass rejects, and 500 exactly when it meets a fault (an awaited call
    that threw, or a balance response whose first entry cannot be read)
    or when all checks pass and the insertion throws.  With a signature
    present, a tip request that throws gives 500, while a tip response
    that arrives without data or without a truthy [tipHeight] gives 400
    with the reason that the block height cannot be retrieved. *)
Theorem verify_snapshot_status_codes (w : world) (st : store) (req : request) :
  exists r,
    response_of (snd (handle_request w st req)) = Some r /\
    (status r = 200 \/ status r = 400 \/ status r = 500) /\
    (status r = 400 <-> exists reason, first_failing checks w st req = Reject reason) /\
    (status r = 500 <->
       first_failing checks w st req = Fault \/
       (first_failing checks w st req = Pass /\ db_create_fault w = true)) /\
    (missing_signature_check w st req = Pass ->
     (forall e, chain_tip w = Throw e -> status r = 500) /\
     (chain_tip w = Normal NoData \/
      (exists h, chain_tip w = Normal (Data h) /\ truthy h = false) ->
      r = mkResponse 400 (ErrorBody "Unable to retrieve block height"))).
Proof.
  exists (fst (pipeline w st req)).
  split; [apply handle_request_response|].
  pose proof (pipeline_status w st req) as Hs.
  split; [|split; [|split]].
  - destruct (first_failing checks w st req); [destruct (db_create_fault w)| |];
      rewrite Hs; auto.
  - destruct (first_failing checks w st req) as [|reason|];
      [destruct (db_create_fault w)| |]; rewrite Hs; split;
      try discriminate; try (intros [? ?]; discriminate); eauto.
  - destruct (first_failing checks w st req) as [|reason|];
      [destruct (db_create_fault w)| |]; rewrite Hs; split;
      try discriminate; auto; intros [?|[? ?]]; discriminate.
  - intros Hsig. clear Hs.
    unfold Verify.pipeline, Verify.checks.
    cbn [first_failing]. rewrite Hsig. unfold snapshot_height_check. split.
    + intros e ->. reflexivity.
    + intros [-> | (h & -> & ->)]; reflexivity.
Qed.

(** C9, amended.  When all checks pass and the insertion succeeds, then
    whatever the webhook configuration and whatever the outcome of the
    POST to it: the claim is stored, the response is 200, the
    notification call is made after the insertion and before the
    response is sent, and what its outcome logs comes after the
    response.  With a webhook configured the POST carries the source
    (x42) address and the claimed balance. *)
Theorem notification_never_alters_commit_or_response
    (w : world) (st : store) (req : request) :
  first_failing checks w st req = Pass ->
  db_create_fault w = false ->
  forall (url : bool) (post : completion unit),
    let w' := with_webhook w url post in
    let x42 := body_x42_address req in
    let balance := body_snapshot_balance req in
    let '(now, (later, success)) :=
      sendSnapshotVerificationNotification w' x42 balance in
    handle_request w' st req =
      (st ++ [claim_row req],
       calls_performed w st req ++
       [EvCreate (claim_row req)] ++ now ++
       [EvSend (mkResponse 200 success_body)] ++
       later ++
       (if success then []
        else [EvConsole ConsoleWarn "Discord notification failed for address:"])) /\
    (url = true -> now = [EvWebhookPost x42 balance]) /\
    fst (handle_request w' st req) = st ++ [claim_row req] /\
    response_of (snd (handle_request w' st req)) =
      Some (mkResponse 200 success_body).
Proof.
  intros Hpass Hcreate url post.
  unfold Verify.handle_request, Verify.calls_performed, verify_snapshot, claim_row.
  revert Hpass.
  unfold Verify.checks,
    missing_signature_check, snapshot_height_check, claim_deadline_check,
    duplicate_address_check, balance_check, signature_check.
  destruct req as [sig x42 epix bal json]. cbn.
  destruct sig as [[|c sig]|]; cbn; try discriminate.
  destruct w as [tip now ffault bals ver cfault url0 post0]; cbn in *.
  subst cfault.
  destruct tip as [[|h]|e]; cbn; try discriminate.
  destruct (truthy h); cbn; try discriminate.
  destruct (loose_eq_number StringToNumber h snapshotHeight); cbn;
    try discriminate.
  destruct (now >? claimDeadline); cbn; try discriminate.
  destruct ffault; cbn; try discriminate.
  destruct (findOne x42 st); cbn; try discriminate.
  destruct (bals x42) as [[b|]|e]; cbn; try discriminate.
  destruct (strict_eq b bal); cbn; try discriminate.
  destruct (ver (String c sig) x42 json) as [v|e]; cbn; try discriminate.
  destruct (strict_eq v (JStr "True")); cbn; try discriminate.
  intros _.
  unfold sendSnapshotVerificationNotification; cbn.
  destruct url; cbn; [destruct post; cbn|]; repeat split; try reflexivity;
    discriminate.
Qed.

(** Requests handled one after the other never store two claims for one
    source address: the lookup before the insertion sees every earlier
    claim. *)
Lemma sequential_requests_keep_sources_unique
    (w : world) (st : store) (req : request) :
  NoDup (map x42_address st) ->
  NoDup (map x42_address (fst (handle_request w st req))).
Proof.
  intros Hnd. rewrite (proj1 (handle_request_refines w st req)).
  unfold Verify.pipeline.
  destruct (first_failing checks w st req) eqn:Hpass; try exact Hnd.
  destruct (db_create_fault w); [exact Hnd|].
  cbn [snd]. rewrite map_app. cbn [map claim_row x42_address].
  revert Hpass. unfold Verify.checks. cbn [first_failing].
  destruct (missing_signature_check w st req); try discriminate.
  destruct (snapshot_height_check StringToNumber w st req); try discriminate.
  destruct (claim_deadline_check w st req); try discriminate.
  unfold duplicate_address_check.
  destruct (db_find_fault w); try discriminate.
  destruct (findOne (body_x42_address req) st) eqn:Hfind; try discriminate.
  intros _.
  apply NoDup_app; [exact Hnd|repeat constructor; intros []|].
  intros a Hin [<-|[]].
  unfold findOne in Hfind.
  apply in_map_iff in Hin. destruct Hin as (row & Erow & Hrow).
  apply (find_none _ _ Hfind) in Hrow. rewrite Erow, String.eqb_refl in Hrow.
  discriminate.
Qed.

End Handler.

(** C6, as the specification states it, fails: a tip response that
    arrives without data, or without [tipHeight], is answered 400, not
    500. *)
Lemma tip_response_without_height_is_rejected_not_error :
  response_of (snd (handle_request no_conversion world_tip_without_data []
                      request_one))
    = Some (mkResponse 400 (ErrorBody "Unable to retrieve block height")) /\
  response_of (snd (handle_request no_conversion world_tip_without_height []
                      request_one))
    = Some (mkResponse 400 (ErrorBody "Unable to retrieve block height")) /\
  ~ (forall w r,
       chain_tip w = Normal NoData ->
       response_of (snd (handle_request no_conversion w [] request_one)) = Some r ->
       status r = 500).
Proof.
  split; [reflexivity|]. split; [reflexivity|].
  intros H. specialize (H world_tip_without_data _ eq_refl eq_refl).
  discriminate H.
Qed.

(** C9, as the specification states it, fails: the notification carries
    the source (x42) address of the claim, not its destination (epix)
    address. *)
Lemma notification_carries_source_address :
  snd (handle_request no_conversion world_ok [] request_one) =
    [ EvGetTip; EvNewDate;
      EvFindOne "XG9pb7U3F32QQ4dShADV2v71hdLAFQA2Gf";
      EvGetBalances "XG9pb7U3F32QQ4dShADV2v71hdLAFQA2Gf";
      EvVerifymessage "H8sig" "XG9pb7U3F32QQ4dShADV2v71hdLAFQA2Gf" "{body one}";
      EvCreate (claim_row request_one);
      EvWebhookPost "XG9pb7U3F32QQ4dShADV2v71hdLAFQA2Gf" (JNum 69223563046);
      EvSend (mkResponse 200 success_body) ] /\
  body_epix_address request_one = "epix1r2357f40wpkruzxu6ss87rvf0hp7hnln246h4x" /\
  ~ In (EvWebhookPost (body_epix_address request_one) (JNum 69223563046))
       (snd (handle_request no_conversion world_ok [] request_one)).
Proof.
  split; [reflexivity|]. split; [reflexivity|].
  cbn. intros H.
  repeat (destruct H as [H|H]; [discriminate H|]). exact H.
Qed.

Lemma notification_never_alters_commit_or_response_witness :
  fst (handle_request no_conversion
         (with_webhook world_ok true (Throw NetworkError)) [] request_one) =
    [claim_row request_one] /\
  response_of (snd (handle_request no_conversion
         (with_webhook world_ok true (Throw NetworkError)) [] request_one)) =
    Some (mkResponse 200 success_body).
Proof.
  assert (Hpass : first_failing (checks no_conversion) world_ok [] request_one = Pass)
    by reflexivity.
  assert (Hcreate : db_create_fault world_ok = false) by reflexivity.
  pose proof (notification_never_alters_commit_or_response no_conversion
                world_ok [] request_one Hpass Hcreate true (Throw NetworkError)) as H.
  cbv zeta in H.
  destruct (sendSnapshotVerificationNotification
              (with_webhook world_ok true (Throw NetworkError))
              (body_x42_address request_one) (body_snapshot_balance request_one))
    as [now [later success]].
  destruct H as (_ & _ & Hst & Hresp). split; [exact Hst|exact Hresp].
Defined.

(** C7.  Two submissions for the same source address, both in flight:
    each lookup settles before either insertion, so both pass the
    duplicate check, both rows are inserted and both requests are
    answered 200.  The table then holds two claims for one source
    address. *)
Theorem racing_submissions_store_two_claims_for_one_source :
  body_x42_address request_one = body_x42_address request_two /\
  fst (fst race_end) = [claim_row request_one; claim_row request_two] /\
  map (fun t => response_of (th_trace t)) (snd (fst race_end)) =
    [ Some (mkResponse 200 success_body); Some (mkResponse 200 success_body) ] /\
  filter (fun ev => match snd ev with
                    | EvFindOne _ | EvCreate _ => true
                    | _ => false
                    end) (snd race_end) =
    [ (0%nat, EvFindOne "XG9pb7U3F32QQ4dShADV2v71hdLAFQA2Gf");
      (1%nat, EvFindOne "XG9pb7U3F32QQ4dShADV2v71hdLAFQA2Gf");
      (0%nat, EvCreate (claim_row request_one));
      (1%nat, EvCreate (claim_row request_two)) ] /\
  ~ NoDup (map x42_address (fst (fst race_end))).
Proof.
  split; [reflexivity|]. split; [reflexivity|]. split; [reflexivity|].
  split; [reflexivity|].
  intros H. inversion H as [|? ? Hnotin _]. apply Hnotin. left. reflexivity.
Qed.

End VerifyProofs.

(** ** Further properties of GET /download-csv *)

Module CsvExportProofs.

Import JsMapFacts Csv Redistribution RedistributionProofs CsvProofs CsvExport.

(** *** The aggregation *)

Lemma get_set_same {V : Type} (k : string) (v : V) (m : JsMap.t V) :
  JsMap.get k (JsMap.set k v m) = Some v.
Proof.
  induction m as [|[k' v'] m IH]; cbn.
  - now rewrite String.eqb_refl.
  - destruct (String.eqb_spec k k') as [->|Hne]; cbn.
    + now rewrite String.eqb_refl.
    + destruct (String.eqb_spec k k'); [contradiction|exact IH].
Qed.

Lemma get_set_other {V : Type} (k d : string) (v : V) (m : JsMap.t V) :
  d <> k -> JsMap.get d (JsMap.set k v m) = JsMap.get d m.
Proof.
  intros Hne. induction m as [|[k' v'] m IH]; cbn.
  - destruct (String.eqb_spec d k); [contradiction|reflexivity].
  - destruct (String.eqb_spec k k') as [->|Hkk']; cbn.
    + destruct (String.eqb_spec d k'); [contradiction|reflexivity].
    + destruct (String.eqb_spec d k'); [reflexivity|exact IH].
Qed.

Lemma aggregate_get (d : string) (snapshots : list Snapshot) :
  forall m,
    JsMap.get d (fold_left aggregate_step snapshots m) =
    match JsMap.get d m, claims_of d snapshots with
    | None, [] => None
    | Some b, cs => Some (b + sumZ (map snapshot_balance cs))
    | None, cs => Some (sumZ (map snapshot_balance cs))
    end.
Proof.
  induction snapshots as [|s l IH]; intros m.
  - cbn. destruct (JsMap.get d m); [f_equal; lia|reflexivity].
  - cbn [fold_left claims_of filter]. rewrite IH. fold (claims_of d l).
    unfold aggregate_step. rewrite existing_balance.
    destruct (String.eqb_spec (epix_address s) d) as [E|Hne].
    + rewrite E, get_set_same. cbn [map]. rewrite sumZ_cons.
      destruct (JsMap.get d m) as [b|]; f_equal; lia.
    + rewrite get_set_other by congruence. reflexivity.
Qed.

(** X1.  The original balance of a destination is the sum of the claimed
    balances of the claims that name it; an address that no claim names
    has no entry. *)
Theorem aggregated_balance_is_sum_of_claims (d : string) (snapshots : list Snapshot) :
  JsMap.get d (aggregatedBalances snapshots) =
  match claims_of d snapshots with
  | [] => None
  | cs => Some (sumZ (map snapshot_balance cs))
  end.
Proof.
  unfold aggregatedBalances. rewrite aggregate_get. cbn [JsMap.get].
  destruct (claims_of d snapshots); reflexivity.
Qed.

(** X2.  The total the handler scales against is the sum of all claimed
    balances in the table: grouping by destination loses nothing. *)
Theorem aggregation_preserves_total (snapshots : list Snapshot) :
  totalClaimedRaw (aggregatedBalances snapshots) =
  sumZ (map snapshot_balance snapshots).
Proof. apply totalClaimedRaw_sum. Qed.

Lemma details_get (d : string) (snapshots : list Snapshot) :
  forall m,
    JsMap.get d (fold_left details_step snapshots m) =
    match JsMap.get d m, claims_of d snapshots with
    | None, [] => None
    | Some ds, cs => Some (ds ++ cs)
    | None, cs => Some cs
    end.
Proof.
  induction snapshots as [|s l IH]; intros m.
  - cbn. destruct (JsMap.get d m); [now rewrite app_nil_r|reflexivity].
  - cbn [fold_left claims_of filter]. rewrite IH. fold (claims_of d l).
    unfold details_step.
    destruct (String.eqb_spec (epix_address s) d) as [E|Hne].
    + rewrite E, get_set_same.
      destruct (JsMap.get d m) as [ds|]; cbn; [now rewrite <- app_assoc|reflexivity].
    + rewrite get_set_other by congruence. reflexivity.
Qed.

Lemma details_lookup (d : string) (snapshots : list Snapshot) :
  JsMap.get d (aggregatedDetails snapshots) =
  match claims_of d snapshots with
  | [] => None
  | cs => Some cs
  end.
Proof.
  unfold aggregatedDetails. rewrite details_get. cbn [JsMap.get].
  destruct (claims_of d snapshots); reflexivity.
Qed.

(** X3.  The detail list of a destination holds exactly the claims that
    name it, in the order of the table; an address that no claim names
    has no detail list. *)
Theorem aggregated_details_are_claims_of (d : string) (snapshots : list Snapshot) :
  JsMap.get d (aggregatedDetails snapshots) =
  match claims_of d snapshots with
  | [] => None
  | cs => Some cs
  end.
Proof. apply details_lookup. Qed.

(** *** The entries on any table *)

(** The shape of the result on any table that is not empty, negative
    balances included. *)
Lemma redistribute_entries (target : Z) (snapshots : list Snapshot) :
  0 <= target -> snapshots <> [] ->
  exists others k o m,
    aggregatedBalances snapshots = others ++ [(k, o)] /\
    multiplierBigInt target (totalClaimedRaw (aggregatedBalances snapshots))
      = Normal m /\
    0 <= m <= 100000000 /\
    redistribute target snapshots =
      Normal (map (scale_entry m) others ++
                [mkEntry k o
                   (last_final target m 0
                      (sumZ (map (fun e => scaled m (snd e)) others)) o)],
              0 + sumZ (map (fun e => scaled m (snd e)) others) +
              last_final target m 0
                (sumZ (map (fun e => scaled m (snd e)) others)) o).
Proof.
  intros Ht Hne.
  assert (Hagg : aggregatedBalances snapshots <> [])
    by (apply aggregate_not_nil; right; exact Hne).
  destruct (exists_last Hagg) as (others & [k o] & E).
  destruct (multiplier_total target Ht
              (totalClaimedRaw (aggregatedBalances snapshots))) as (m & Em & Bm & _).
  exists others, k, o, m. repeat split; try assumption; try lia.
  unfold redistribute. rewrite Em. cbn [bind]. rewrite E.
  rewrite length_app. cbn [List.length].
  replace (Z.of_nat (List.length others + 1) - 1)
    with (0 + Z.of_nat (List.length others)) by lia.
  rewrite map_entries_snoc. reflexivity.
Qed.

Lemma scaled_monotone (m o1 o2 : Z) :
  0 <= m -> o1 <= o2 -> scaled m o1 <= scaled m o2.
Proof.
  intros Hm Hle. unfold scaled. apply Z.quot_le_mono; [lia|nia].
Qed.

(** X4.  Among the entries before the last, a destination with a larger
    original balance never receives a smaller final balance; this holds
    on every table. *)
Theorem final_balance_monotone_before_last
    (snapshots : list Snapshot) (entries : list Entry) (total : Z) (e1 e2 : Entry) :
  download_csv_balances snapshots = Normal (entries, total) ->
  In e1 (removelast entries) -> In e2 (removelast entries) ->
  originalBalance e1 <= originalBalance e2 ->
  finalBalance e1 <= finalBalance e2.
Proof.
  intros Hrun H1 H2 Hle.
  destruct snapshots as [|s l].
  { unfold download_csv_balances in Hrun.
    rewrite redistribute_empty in Hrun by apply TARGET_nonneg.
    injection Hrun as <- _. destruct H1. }
  destruct (redistribute_entries TARGET_BALANCE_SATS (s :: l) TARGET_nonneg)
    as (others & k & o & m & _ & _ & Bm & R); [discriminate|].
  unfold download_csv_balances in Hrun. rewrite R in Hrun.
  assert (Hentries : entries = map (scale_entry m) others ++
            [mkEntry k o (last_final TARGET_BALANCE_SATS m 0
               (sumZ (map (fun e => scaled m (snd e)) others)) o)])
    by congruence.
  rewrite Hentries, removelast_last in H1, H2.
  apply in_scale_entry in H1, H2. destruct H1 as [-> _], H2 as [-> _].
  apply scaled_monotone; [lia|exact Hle].
Qed.

Lemma final_balance_monotone_before_last_witness :
  finalBalance (mkEntry "A" 300000000 177671445) <=
  finalBalance (mkEntry "B" 700000000 414566705).
Proof.
  apply (final_balance_monotone_before_last
           [claimA; claimB; MoreExamples.claimWhale]
           [ mkEntry "A" 300000000 177671445;
             mkEntry "B" 700000000 414566705;
             mkEntry "W" 2000000000000000 1184476307761850 ]
           1184476900000000).
  - reflexivity.
  - left. reflexivity.
  - right. left. reflexivity.
  - discriminate.
Defined.

(** *** How much the last entry gains from rounding *)

Lemma sum_scaled_lower (m : Z) (l : list (string * Z)) :
  0 <= m -> Forall (fun b => 0 <= b) (map snd l) ->
  m * sumZ (map snd l) - Z.of_nat (List.length l) * (100000000 - 1)
  <= 100000000 * sumZ (map (fun e => scaled m (snd e)) l).
Proof.
  intros Hm. induction l as [|[k o] l IH]; intros Hl.
  - cbn. lia.
  - cbn [map snd] in Hl. inversion Hl as [|? ? Ho Hl']; subst.
    specialize (IH Hl').
    assert (o * m - (100000000 - 1) <= 100000000 * scaled m o).
    { rewrite scaled_floor by lia.
      pose proof (Z.div_mod (o * m) 100000000 ltac:(lia)).
      pose proof (Z.mod_pos_bound (o * m) 100000000 ltac:(lia)). lia. }
    cbn [map snd List.length]. rewrite !sumZ_cons, Nat2Z.inj_succ. lia.
Qed.

(** X5.  When the total exceeds the cap (no negative balances), the last
    entry receives at least its own scaled balance, and what it receives
    beyond that, the rounding loss of the whole table, is at most the
    number of destinations plus the total divided by the scale. *)
Theorem last_entry_rounding_gain_bounded (snapshots : list Snapshot) :
  nonneg_claims snapshots ->
  TARGET_BALANCE_SATS < totalClaimedRaw (aggregatedBalances snapshots) ->
  let total := totalClaimedRaw (aggregatedBalances snapshots) in
  exists m others last,
    multiplierBigInt TARGET_BALANCE_SATS total = Normal m /\
    download_csv_balances snapshots =
      Normal (others ++ [last], TARGET_BALANCE_SATS) /\
    0 <= finalBalance last - originalBalance last * m / 100000000
      <= Z.of_nat (List.length (others ++ [last])) + total / 100000000.
Proof.
  intros Hnn Hgt total.
  destruct snapshots as [|s l].
  { vm_compute in Hgt. discriminate. }
  destruct (redistribute_shape TARGET_BALANCE_SATS (s :: l) TARGET_nonneg) as
      (others & k & o & m & E & Em & Bm & Ho & Hothers & Hsum & R);
      [discriminate|exact Hnn|].
  exists m. eexists. eexists. split; [exact Em|]. split; [exact R|].
  cbn [finalBalance originalBalance].
  rewrite <- (scaled_floor m o) by lia.
  split; [lia|].
  destruct (multiplier_over_cap _ TARGET_nonneg _ Hgt) as (Em' & Bm' & _).
  assert (Hm : TARGET_BALANCE_SATS * 100000000 /
               totalClaimedRaw (aggregatedBalances (s :: l)) = m) by congruence.
  assert (Htotal : total = sumZ (map snd others) + o).
  { unfold total, totalClaimedRaw. rewrite fold_left_add_sumZ, E.
    unfold JsMap.values. rewrite map_app, sumZ_app. cbn [map snd].
    rewrite sumZ_cons. change (sumZ []) with 0. lia. }
  fold total in Hm, Hgt.
  pose proof TARGET_nonneg as Htn.
  assert (Hpos : 0 < total) by lia.
  assert (Hmt : TARGET_BALANCE_SATS * 100000000 - total + 1 <= m * total).
  { pose proof (Z.div_mod (TARGET_BALANCE_SATS * 100000000) total) as Hd.
    pose proof (Z.mod_pos_bound (TARGET_BALANCE_SATS * 100000000) total Hpos) as Hb.
    rewrite Hm in Hd. lia. }
  pose proof (sum_scaled_lower m (others ++ [(k, o)]) (proj1 Bm)) as Hlow.
  rewrite !map_app, !sumZ_app in Hlow. cbn [map snd] in Hlow.
  rewrite !sumZ_cons in Hlow. change (sumZ []) with 0 in Hlow.
  assert (Hall : Forall (fun b => 0 <= b) (map snd others ++ [o]))
    by (apply Forall_app; split; [exact Hothers|repeat constructor; exact Ho]).
  specialize (Hlow Hall). rewrite length_app in *. cbn [List.length] in *.
  rewrite length_map.
  set (n := Z.of_nat (List.length others + 1)) in *.
  set (sigma := sumZ (map (fun e => scaled m (snd e)) others)) in *.
  assert (Hn : 0 <= n) by (unfold n; lia).
  assert (Hx : 100000000 * (TARGET_BALANCE_SATS - sigma - scaled m o - n) <= total).
  { rewrite Htotal in Hmt. rewrite Htotal. nia. }
  apply Z.div_le_lower_bound in Hx; lia.
Qed.

Lemma last_entry_rounding_gain_bounded_witness :
  let snapshots := [claimA; claimB; MoreExamples.claimWhale] in
  let total := totalClaimedRaw (aggregatedBalances snapshots) in
  exists m others last,
    multiplierBigInt TARGET_BALANCE_SATS total = Normal m /\
    download_csv_balances snapshots =
      Normal (others ++ [last], TARGET_BALANCE_SATS) /\
    0 <= finalBalance last - originalBalance last * m / 100000000
      <= Z.of_nat (List.length (others ++ [last])) + total / 100000000.
Proof.
  apply (last_entry_rounding_gain_bounded [claimA; claimB; MoreExamples.claimWhale]).
  - repeat constructor; discriminate.
  - reflexivity.
Defined.

(** *** Every claim in exactly one group *)

Lemma claims_of_nil_iff (d : string) (snapshots : list Snapshot) :
  claims_of d snapshots = [] <-> ~ In d (map epix_address snapshots).
Proof.
  induction snapshots as [|s l IH]; cbn; [tauto|].
  destruct (String.eqb_spec (epix_address s) d) as [E|Hne].
  - split; [discriminate|]. intros H. exfalso. apply H. now left.
  - fold (claims_of d l). rewrite IH. tauto.
Qed.

Lemma filter_other_id (x : string) (l : list string) :
  ~ In x l -> filter (fun y => negb (String.eqb y x)) l = l.
Proof.
  induction l as [|y l IH]; intros H; cbn; [reflexivity|].
  destruct (String.eqb_spec y x) as [->|Hne]; cbn.
  - exfalso. apply H. now left.
  - f_equal. apply IH. intros Hin. apply H. now right.
Qed.

Lemma flat_map_ext_on {A B : Type} (f g : A -> list B) (l : list A) :
  (forall a, In a l -> f a = g a) -> flat_map f l = flat_map g l.
Proof.
  induction l as [|a l IH]; intros H; cbn; [reflexivity|].
  rewrite (H a) by now left. f_equal. apply IH. intros b Hb. apply H. now right.
Qed.

Lemma group_to_front {A : Type} (f : string -> list A) (x : string) (l : list string) :
  NoDup l -> (~ In x l -> f x = []) ->
  Permutation (f x ++ flat_map f (filter (fun y => negb (String.eqb y x)) l))
              (flat_map f l).
Proof.
  induction 1 as [|y l Hy Hl IH]; intros Hx.
  - cbn. rewrite Hx by auto. constructor.
  - cbn [filter flat_map].
    destruct (String.eqb_spec y x) as [->|Hne]; cbn [negb].
    + rewrite filter_other_id by exact Hy. apply Permutation_refl.
    + cbn [flat_map]. rewrite Permutation_app_swap_app.
      apply Permutation_app_head. apply IH.
      intros Hin. apply Hx. intros [E|H]; [congruence|contradiction].
Qed.

Lemma groups_permutation (snapshots : list Snapshot) :
  Permutation
    (flat_map (fun d => claims_of d snapshots)
              (JsMap.keys (aggregatedBalances snapshots)))
    snapshots.
Proof.
  rewrite aggregated_keys.
  induction snapshots as [|s l IH]; [constructor|].
  cbn [map first_occurrences flat_map].
  unfold claims_of at 1. cbn [filter]. rewrite String.eqb_refl.
  fold (claims_of (epix_address s) l). cbn [app]. constructor.
  eapply Permutation_trans; [|exact IH].
  eapply Permutation_trans;
    [|apply (group_to_front (fun d => claims_of d l) (epix_address s))].
  - apply Permutation_app_head.
    erewrite flat_map_ext_on; [apply Permutation_refl|].
    intros d Hd. apply filter_In in Hd. destruct Hd as [_ Hd].
    unfold claims_of. cbn [filter].
    destruct (String.eqb_spec (epix_address s) d) as [E|Hne]; [|reflexivity].
    rewrite E, String.eqb_refl in Hd. discriminate.
  - apply first_occurrences_nodup.
  - intros Hnot. apply claims_of_nil_iff. intros Hin. apply Hnot.
    apply first_occurrences_in. exact Hin.
Qed.

(** X6.  The groups of the destinations, taken in the order of the
    entries, hold every claim of the table exactly once. *)
Theorem groups_partition_the_table (snapshots : list Snapshot) :
  Permutation
    (flat_map (fun d => claims_of d snapshots)
              (JsMap.keys (aggregatedBalances snapshots)))
    snapshots.
Proof. apply groups_permutation. Qed.

(** *** Reading the export back *)

Lemma sequence_map_normal {A B : Type} (f : A -> completion B) (g : A -> B)
    (l : list A) :
  (forall a, In a l -> f a = Normal (g a)) ->
  sequence (map f l) = Normal (map g l).
Proof.
  induction l as [|a l IH]; intros H; cbn; [reflexivity|].
  rewrite (H a) by now left. cbn [bind].
  rewrite IH by (intros b Hb; apply H; now right). reflexivity.
Qed.

Lemma compact_row_text (e : Entry) :
  compact_row e = Normal (row_text (compact_record e)).
Proof. reflexivity. Qed.

Lemma detailed_fields_record (m : Z) (e : Entry) (d : Snapshot) :
  detailed_fields m e d = Normal (detailed_record m e d).
Proof. reflexivity. Qed.

Lemma detailed_rows_text (m : Z) (snapshots : list Snapshot) (e : Entry) :
  detailed_rows m (aggregatedDetails snapshots) e =
  Normal (csv_text (map (detailed_record m e)
                        (claims_of (epixAddress e) snapshots))).
Proof.
  unfold detailed_rows. rewrite details_lookup.
  assert (E : match
                match claims_of (epixAddress e) snapshots with
                | [] => None
                | s :: l => Some (s :: l)
                end
              with
              | Some ds => ds
              | None => []
              end = claims_of (epixAddress e) snapshots)
    by (destruct (claims_of (epixAddress e) snapshots); reflexivity).
  rewrite E.
  rewrite (sequence_map_normal _ (detailed_record m e))
    by (intros; apply detailed_fields_record).
  cbn [bind]. unfold csv_text, row_text, escape. rewrite map_map. reflexivity.
Qed.

Lemma join_cons_text (sep : ascii) (x : string) (l : list string) :
  l <> [] -> (x ++ String sep "" ++ join sep l)%string = join sep (x :: l).
Proof. destruct l; [congruence|reflexivity]. Qed.

Lemma join_app (sep : ascii) (l1 l2 : list string) :
  l1 <> [] -> l2 <> [] ->
  join sep (l1 ++ l2) = (join sep l1 ++ String sep (join sep l2))%string.
Proof.
  intros H1 H2. induction l1 as [|x l1 IH]; [congruence|].
  destruct l1 as [|y l1].
  - destruct l2; [congruence|reflexivity].
  - change ((x :: y :: l1) ++ l2) with (x :: (y :: l1) ++ l2).
    change ((y :: l1) ++ l2) with (y :: l1 ++ l2) at 1.
    rewrite !join_cons2. change (y :: l1 ++ l2) with ((y :: l1) ++ l2).
    rewrite IH by discriminate. rewrite string_app_assoc. reflexivity.
Qed.

Lemma concat_not_nil {A : Type} (g : list A) (gs : list (list A)) :
  g <> [] -> List.concat (g :: gs) <> [].
Proof. destruct g; [congruence|discriminate]. Qed.

(** Joining the texts of groups of records is the text of all their
    records, when no group is empty. *)
Lemma csv_text_groups (groups : list (list (list string))) :
  Forall (fun g => g <> []) groups ->
  join LF (map csv_text groups) = csv_text (List.concat groups).
Proof.
  induction 1 as [|g gs Hg Hgs IH]; [reflexivity|].
  destruct gs as [|g2 gs].
  - cbn. now rewrite app_nil_r.
  - cbn [map]. rewrite join_cons2. cbn [map] in IH. rewrite IH.
    change (List.concat (g :: g2 :: gs)) with (g ++ List.concat (g2 :: gs)).
    unfold csv_text. rewrite map_app. rewrite join_app; [reflexivity| |].
    + destruct g; [congruence|discriminate].
    + inversion Hgs as [|? ? Hg2 _]; subst.
      destruct g2; [congruence|discriminate].
Qed.

Lemma entries_not_nil (m : Z) (others : list (string * Z)) (e : Entry) :
  map (scale_entry m) others ++ [e] <> [].
Proof. destruct (map (scale_entry m) others); discriminate. Qed.

(** X7.  The compact export of a table that is not empty reads back as
    the header record followed by one record per destination, in the
    order of the entries, holding the destination address and the text of
    its final balance.  The export of the empty table is the header line
    alone. *)
Theorem compact_export_reads_back (snapshots : list Snapshot) :
  snapshots <> [] ->
  (exists entries total content,
     download_csv_balances snapshots = Normal (entries, total) /\
     download_csv false snapshots = (200, content) /\
     parse_csv content =
       ["epix_address"; "balance"] :: map compact_record entries) /\
  download_csv false [] = (200, ("epix_address,balance" ++ String LF "")%string).
Proof.
  intros Hne. split; [|reflexivity].
  destruct (redistribute_entries TARGET_BALANCE_SATS snapshots TARGET_nonneg Hne)
    as (others & k & o & m & _ & Em & _ & R).
  eexists; eexists; eexists. split; [exact R|].
  unfold download_csv, csvContent, download_csv_balances.
  rewrite Em, R. cbn [bind fst].
  rewrite (sequence_map_normal _ (fun e => row_text (compact_record e)))
    by (intros; apply compact_row_text).
  cbn [bind]. split; [reflexivity|].
  change "epix_address,balance" with (row_text ["epix_address"; "balance"]).
  rewrite <- map_map. rewrite join_cons_text.
  - change (join LF (row_text ["epix_address"; "balance"] ::
                     map row_text (map compact_record ?entries)))
      with (csv_text (["epix_address"; "balance"] :: map compact_record entries)).
    unfold parse_csv. rewrite parse_rows; [reflexivity|discriminate|].
    constructor; [discriminate|].
    apply Forall_forall. intros r Hr. apply in_map_iff in Hr.
    destruct Hr as (e & <- & _). discriminate.
  - rewrite !map_app. cbn [map].
    destruct (map row_text (map compact_record (map (scale_entry m) others)));
      discriminate.
Qed.

Lemma compact_export_reads_back_witness :
  (exists entries total content,
     download_csv_balances [claimA; claimB] = Normal (entries, total) /\
     download_csv false [claimA; claimB] = (200, content) /\
     parse_csv content =
       ["epix_address"; "balance"] :: map compact_record entries) /\
  download_csv false [] = (200, ("epix_address,balance" ++ String LF "")%string).
Proof.
  apply (compact_export_reads_back [claimA; claimB]). discriminate.
Defined.

(** X8.  The detailed export of a table that is not empty reads back as
    the header record followed by the records of the claims: for each
    destination in the order of the entries, one record per claim that
    names it, with that claim's own source address, claimed balance,
    signature and raw payload, and the final balance of the destination.
    There are as many of these records as claims in the table. *)
Theorem detailed_export_reads_back (snapshots : list Snapshot) :
  snapshots <> [] ->
  exists m entries total content,
    multiplierBigInt TARGET_BALANCE_SATS
      (totalClaimedRaw (aggregatedBalances snapshots)) = Normal m /\
    download_csv_balances snapshots = Normal (entries, total) /\
    download_csv true snapshots = (200, content) /\
    parse_csv content =
      detailed_headers :: detailed_records m entries snapshots /\
    List.length (detailed_records m entries snapshots) = List.length snapshots.
Proof.
  intros Hne.
  destruct (redistribute_entries TARGET_BALANCE_SATS snapshots TARGET_nonneg Hne)
    as (others & k & o & m & E & Em & _ & R).
  set (entries := map (scale_entry m) others ++
         [mkEntry k o (last_final TARGET_BALANCE_SATS m 0
            (sumZ (map (fun e => scaled m (snd e)) others)) o)]) in *.
  assert (Hkeys : map epixAddress entries = JsMap.keys (aggregatedBalances snapshots)).
  { unfold entries. rewrite shape_addresses, E. reflexivity. }
  assert (Hgroups : forall e, In e entries -> claims_of (epixAddress e) snapshots <> []).
  { intros e He Hnil. apply claims_of_nil_iff in Hnil. apply Hnil.
    apply first_occurrences_in. rewrite <- aggregated_keys, <- Hkeys.
    apply in_map. exact He. }
  exists m, entries. eexists. eexists. split; [exact Em|]. split; [exact R|].
  unfold download_csv, csvContent, download_csv_balances.
  rewrite Em, R. cbn [bind fst].
  rewrite (sequence_map_normal _
             (fun e => csv_text (map (detailed_record m e)
                                     (claims_of (epixAddress e) snapshots))))
    by (intros; apply detailed_rows_text).
  cbn [bind]. split; [reflexivity|]. split.
  - change (join comma detailed_headers) with (row_text detailed_headers).
    rewrite <- (map_map (fun e => map (detailed_record m e)
                                      (claims_of (epixAddress e) snapshots))
                        csv_text).
    rewrite csv_text_groups.
    + rewrite <- flat_map_concat_map. fold (detailed_records m entries snapshots).
      unfold csv_text at 1. rewrite join_cons_text.
      * change (join LF (row_text detailed_headers ::
                         map row_text (detailed_records m entries snapshots)))
          with (csv_text (detailed_headers :: detailed_records m entries snapshots)).
        unfold parse_csv. rewrite parse_rows; [reflexivity|discriminate|].
        constructor; [discriminate|].
        apply Forall_forall. intros r Hr. unfold detailed_records in Hr.
        apply in_flat_map in Hr. destruct Hr as (e & _ & Hr).
        apply in_map_iff in Hr. destruct Hr as (d & <- & _). discriminate.
      * unfold detailed_records, entries. rewrite flat_map_app, map_app.
        cbn [flat_map]. rewrite app_nil_r.
        intros Hnil. apply app_eq_nil in Hnil. destruct Hnil as [_ Hnil].
        apply map_eq_nil in Hnil. apply map_eq_nil in Hnil.
        apply (Hgroups (mkEntry k o (last_final TARGET_BALANCE_SATS m 0
                 (sumZ (map (fun e => scaled m (snd e)) others)) o))).
        -- unfold entries. apply in_or_app. right. now left.
        -- exact Hnil.
    + apply Forall_forall. intros g Hg. apply in_map_iff in Hg.
      destruct Hg as (e & <- & He). intros Hnil. apply map_eq_nil in Hnil.
      exact (Hgroups e He Hnil).
  - unfold detailed_records.
    rewrite <- (Permutation_length (groups_permutation snapshots)).
    rewrite <- Hkeys. rewrite !flat_map_concat_map, !length_concat, !map_map.
    f_equal. apply map_ext. intros e. apply length_map.
Qed.

Lemma detailed_export_reads_back_witness :
  exists m entries total content,
    multiplierBigInt TARGET_BALANCE_SATS
      (totalClaimedRaw (aggregatedBalances [claimA; claimQ; claimZero])) = Normal m /\
    download_csv_balances [claimA; claimQ; claimZero] = Normal (entries, total) /\
    download_csv true [claimA; claimQ; claimZero] = (200, content) /\
    parse_csv content =
      detailed_headers :: detailed_records m entries [claimA; claimQ; claimZero] /\
    List.length (detailed_records m entries [claimA; claimQ; claimZero]) =
      List.length [claimA; claimQ; claimZero].
Proof.
  apply (detailed_export_reads_back [claimA; claimQ; claimZero]). discriminate.
Defined.

(** X17.  GET /download-csv answers 200 on every table and for both
    forms of the export: the only division by a value of the table, the
    one by the total, is made when the total exceeds the cap and so is
    not zero. *)
Theorem csv_export_never_faults (detailed : bool) (snapshots : list Snapshot) :
  fst (download_csv detailed snapshots) = 200 /\
  exists m, multiplierBigInt TARGET_BALANCE_SATS
              (totalClaimedRaw (aggregatedBalances snapshots)) = Normal m.
Proof.
  split; [apply download_csv_never_faults|].
  destruct (multiplier_total TARGET_BALANCE_SATS TARGET_nonneg
              (totalClaimedRaw (aggregatedBalances snapshots))) as (m & Em & _).
  exists m. exact Em.
Qed.

End CsvExportProofs.

(** ** Further properties of POST /verify-snapshot *)

Module ServeProofs.

Import Verify VerifyProofs Serve.

Section Handler.

Variable StringToNumber : string -> option Z.

Abbreviation handle_request := (Verify.handle_request StringToNumber).
Abbreviation pipeline := (Verify.pipeline StringToNumber).
Abbreviation checks := (Verify.checks StringToNumber).

(** An insertion is attempted only after all six checks have passed. *)
Lemma create_only_after_checks (w : world) (st : store) (req : request) :
  existsb is_create (snd (handle_request w st req)) = true ->
  first_failing checks w st req = Pass.
Proof.
  unfold Verify.handle_request, verify_snapshot, Verify.checks,
    missing_signature_check, snapshot_height_check, claim_deadline_check,
    duplicate_address_check, balance_check, signature_check.
  destruct req as [sig x42 epix bal json]. cbn.
  destruct sig as [[|c sig]|]; cbn; try discriminate.
  destruct w as [tip now ffault bals ver cfault url post]; cbn.
  destruct tip as [[|h]|e]; cbn; try discriminate.
  destruct (truthy h); cbn; try discriminate.
  destruct (loose_eq_number StringToNumber h snapshotHeight); cbn;
    try discriminate.
  destruct (now >? claimDeadline); cbn; try discriminate.
  destruct ffault; cbn; try discriminate.
  destruct (findOne x42 st); cbn; try discriminate.
  destruct (bals x42) as [[b|]|e]; cbn; try discriminate.
  destruct (strict_eq b bal); cbn; try discriminate.
  destruct (ver (String c sig) x42 json) as [v|e]; cbn; try discriminate.
  destruct (strict_eq v (JStr "True")); cbn; try discriminate.
  reflexivity.
Qed.

Lemma snoc_not_same {A : Type} (l : list A) (x : A) : l ++ [x] <> l.
Proof.
  intros H. apply (f_equal (@List.length A)) in H.
  rewrite length_app in H. cbn in H. lia.
Qed.

(** X9.  The table changes only with a 200 response: the response is 200
    exactly when the table has gained the row of this request, as its
    last row; with any other response the table is as before.  An
    insertion is attempted only when all six checks have passed. *)
Theorem table_changes_only_on_success (w : world) (st : store) (req : request) :
  exists r,
    response_of (snd (handle_request w st req)) = Some r /\
    (status r = 200 <-> fst (handle_request w st req) = st ++ [claim_row req]) /\
    (status r <> 200 -> fst (handle_request w st req) = st) /\
    (existsb is_create (snd (handle_request w st req)) = true ->
     first_failing checks w st req = Pass).
Proof.
  destruct (handle_request_refines StringToNumber w st req) as (Hst & Hresp & _).
  exists (fst (pipeline w st req)). split; [exact Hresp|].
  rewrite Hst. unfold Verify.pipeline.
  split; [|split; [|apply create_only_after_checks]].
  - destruct (first_failing checks w st req); [destruct (db_create_fault w)| |];
      cbn; split; try discriminate; try reflexivity;
      intros H; symmetry in H; apply snoc_not_same in H; contradiction.
  - destruct (first_failing checks w st req); [destruct (db_create_fault w)| |];
      cbn; intros H; try reflexivity. contradiction.
Qed.

(** X10.  Requests handled one after the other, whatever they are and
    whatever the node answers, never leave two claims for one source
    address in the table. *)
Theorem serving_in_turn_keeps_sources_unique
    (requests : list (world * request)) (st : store) :
  NoDup (map x42_address st) ->
  NoDup (map x42_address (serve_all StringToNumber requests st)).
Proof.
  revert st. induction requests as [|[w req] rest IH]; intros st Hnd.
  - exact Hnd.
  - cbn [serve_all fold_left fst snd]. apply IH.
    apply sequential_requests_keep_sources_unique. exact Hnd.
Qed.

Lemma findOne_present (x42 : string) (st : store) :
  In x42 (map x42_address st) -> exists row, findOne x42 st = Some row.
Proof.
  unfold findOne. induction st as [|row st IH]; intros Hin; [destruct Hin|].
  cbn [find]. destruct (String.eqb_spec (x42_address row) x42) as [E|Hne].
  - eexists. reflexivity.
  - destruct Hin as [E|Hin]; [contradiction|]. apply IH. exact Hin.
Qed.

Lemma success_appends_row (w : world) (st : store) (req : request) (r : response) :
  response_of (snd (handle_request w st req)) = Some r ->
  status r = 200 ->
  fst (handle_request w st req) = st ++ [claim_row req].
Proof.
  destruct (handle_request_refines StringToNumber w st req) as (Hst & Hresp & _).
  rewrite Hresp, Hst. intros [= <-]. unfold Verify.pipeline.
  destruct (first_failing checks w st req); [destruct (db_create_fault w)| |];
    cbn; intros H; try discriminate H. reflexivity.
Qed.

(** X11.  Once a request has been answered 200, a later request for the
    same source address, handled after it, is answered 400 as a
    duplicate whenever it has a signature, the node is at the snapshot
    height, the claim period is open and the lookup does not throw,
    whatever its destination, balance and payload; the table is left
    as it is and neither the balance nor the signature is asked of the
    node. *)
Theorem resubmission_is_rejected_as_duplicate
    (w1 w2 : world) (st : store) (req1 req2 : request) (r : response) :
  response_of (snd (handle_request w1 st req1)) = Some r ->
  status r = 200 ->
  body_x42_address req2 = body_x42_address req1 ->
  missing_signature_check w2 st req2 = Pass ->
  snapshot_height_check StringToNumber w2 st req2 = Pass ->
  claim_deadline_check w2 st req2 = Pass ->
  db_find_fault w2 = false ->
  handle_request w2 (fst (handle_request w1 st req1)) req2 =
    (fst (handle_request w1 st req1),
     [ EvGetTip; EvNewDate; EvFindOne (body_x42_address req2);
       EvSend (mkResponse 400
                 (ErrorBody "Duplicate address. Snapshot was already verified.")) ]).
Proof.
  intros Hresp H200 Hsame Hsig Hheight Hdeadline Hfind.
  pose proof (success_appends_row w1 st req1 r Hresp H200) as Hst.
  rewrite Hst in *.
  assert (Hin : In (body_x42_address req2) (map x42_address (st ++ [claim_row req1]))).
  { rewrite map_app. apply in_or_app. right. left. cbn. congruence. }
  destruct (findOne_present _ _ Hin) as [row Hrow].
  revert Hsig Hheight Hdeadline.
  unfold Verify.handle_request, verify_snapshot,
    missing_signature_check, snapshot_height_check, claim_deadline_check.
  destruct req2 as [sig x42 epix bal json]. cbn in *.
  destruct sig as [[|c sig]|]; cbn; try discriminate.
  destruct w2 as [tip now ffault bals ver cfault url post]; cbn in *.
  subst ffault.
  destruct tip as [[|h]|e]; cbn; try discriminate.
  destruct (truthy h); cbn; try discriminate.
  destruct (loose_eq_number StringToNumber h snapshotHeight); cbn;
    try discriminate.
  destruct (now >? claimDeadline); cbn; try discriminate.
  rewrite Hrow. reflexivity.
Qed.

(** X12.  The block-height gate: with a signature present and the node
    reporting a tip height that is a number other than 3000000 (and
    other than 0, which reads as no height at all), the request is
    answered 400 with the reason naming the required height, whatever
    else it holds; the table is untouched and nothing but the tip is
    asked. *)
Theorem wrong_height_is_rejected_at_once
    (w : world) (st : store) (req : request) (n : Z) :
  missing_signature_check w st req = Pass ->
  chain_tip w = Normal (Data (JNum n)) ->
  n <> 0 -> n <> 3000000 ->
  handle_request w st req =
    (st, [ EvGetTip;
           EvSend (mkResponse 400
                     (ErrorBody "Block height must be at 3,000,000 blocks")) ]).
Proof.
  intros Hsig Htip Hn0 Hn. revert Hsig.
  unfold Verify.handle_request, verify_snapshot, missing_signature_check.
  destruct (header_signature req) as [[|c sig]|]; try discriminate. intros _.
  cbn. rewrite Htip. cbn.
  destruct (Z.eqb_spec n 0); [contradiction|]. cbn.
  unfold snapshotHeight.
  destruct (Z.eqb_spec n 3000000); [contradiction|]. reflexivity.
Qed.

(** X13.  The claim deadline: when the signature and height checks pass,
    a request whose clock reads later than the deadline instant is
    answered 400 with the reason that the claim period has ended, before
    any lookup in the table; a request whose clock reads the deadline
    instant itself, or earlier, goes on to the duplicate lookup. *)
Theorem deadline_is_exclusive (w : world) (st : store) (req : request) :
  missing_signature_check w st req = Pass ->
  snapshot_height_check StringToNumber w st req = Pass ->
  (claimDeadline < clock w ->
   handle_request w st req =
     (st, [ EvGetTip; EvNewDate;
            EvSend (mkResponse 400 (ErrorBody
              "Claim period has ended. The deadline was June 6th, 2025 at 00:00:00 UTC")) ])) /\
  (clock w <= claimDeadline ->
   In (EvFindOne (body_x42_address req)) (snd (handle_request w st req))).
Proof.
  intros Hsig Hheight. split.
  - intros Hlate. revert Hsig Hheight.
    unfold Verify.handle_request, verify_snapshot, missing_signature_check,
      snapshot_height_check.
    destruct (header_signature req) as [[|c sig]|]; try discriminate. intros _.
    cbn. destruct (chain_tip w) as [[|h]|e]; cbn; try discriminate.
    destruct (truthy h); cbn; try discriminate.
    destruct (loose_eq_number StringToNumber h snapshotHeight); cbn;
      try discriminate.
    intros _. destruct (Z.gtb_spec (clock w) claimDeadline); [reflexivity|lia].
  - intros Hopen.
    destruct (handle_request_refines StringToNumber w st req) as (_ & _ & Hcalls).
    assert (Hin : In (EvFindOne (body_x42_address req))
                     (calls_performed StringToNumber w st req)).
    { unfold calls_performed, Verify.checks. cbn [passed_before].
      rewrite Hsig, Hheight. unfold claim_deadline_check.
      destruct (Z.gtb_spec (clock w) claimDeadline); [lia|].
      apply in_flat_map. exists 3%nat. split; [|left; reflexivity].
      apply in_seq.
      destruct (duplicate_address_check w st req); cbn; lia. }
    rewrite <- Hcalls in Hin. apply filter_In in Hin. exact (proj1 Hin).
Qed.

End Handler.

Lemma serving_in_turn_keeps_sources_unique_witness :
  NoDup (map x42_address
           (serve_all no_conversion
              [(world_ok, request_one); (world_ok, request_two)] [])).
Proof.
  apply (serving_in_turn_keeps_sources_unique no_conversion
           [(world_ok, request_one); (world_ok, request_two)] []).
  constructor.
Defined.

Lemma resubmission_is_rejected_as_duplicate_witness :
  handle_request no_conversion world_ok
    (fst (handle_request no_conversion world_ok [] request_one)) request_two =
    (fst (handle_request no_conversion world_ok [] request_one),
     [ EvGetTip; EvNewDate; EvFindOne (body_x42_address request_two);
       EvSend (mkResponse 400
                 (ErrorBody "Duplicate address. Snapshot was already verified.")) ]).
Proof.
  apply (resubmission_is_rejected_as_duplicate no_conversion world_ok world_ok []
           request_one request_two (mkResponse 200 success_body));
    reflexivity.
Defined.

Lemma wrong_height_is_rejected_at_once_witness :
  handle_request no_conversion MoreExamples.world_wrong_height [] request_one =
    ([], [ EvGetTip;
           EvSend (mkResponse 400
                     (ErrorBody "Block height must be at 3,000,000 blocks")) ]).
Proof.
  apply (wrong_height_is_rejected_at_once no_conversion
           MoreExamples.world_wrong_height [] request_one 2999999);
    [reflexivity|reflexivity|discriminate|discriminate].
Defined.

Lemma deadline_is_exclusive_witness :
  (claimDeadline < clock MoreExamples.world_late ->
   handle_request no_conversion MoreExamples.world_late [] request_one =
     ([], [ EvGetTip; EvNewDate;
            EvSend (mkResponse 400 (ErrorBody
              "Claim period has ended. The deadline was June 6th, 2025 at 00:00:00 UTC")) ])) /\
  (clock MoreExamples.world_late <= claimDeadline ->
   In (EvFindOne (body_x42_address request_one))
      (snd (handle_request no_conversion MoreExamples.world_late [] request_one))).
Proof.
  apply (deadline_is_exclusive no_conversion MoreExamples.world_late [] request_one);
    reflexivity.
Defined.

End ServeProofs.

(** ** GET /claims *)

Module ClaimsProofs.

Import Verify Claims.


(** One page, for a page number and a page size that are at least 1. *)
Lemma get_claims_page (page pageSize : Z) (st : store) :
  1 <= page -> 1 <= pageSize ->
  get_claims (Some page) (Some pageSize) false st =
    (200, firstn (Z.to_nat pageSize)
            (skipn (Z.to_nat ((page - 1) * pageSize)) (newest_first st))).
Proof.
  intros Hp Hs. unfold get_claims, or_default, findAll_page, newest_first.
  destruct (Z.eqb_spec page 0); [lia|].
  destruct (Z.eqb_spec pageSize 0); [lia|].
  destruct (Z.ltb_spec ((page - 1) * pageSize) 0); [nia|].
  destruct (Z.ltb_spec pageSize 0); [lia|].
  cbn [orb]. now rewrite skipn_map, firstn_map.
Qed.


(** X15.  Without parameters, or with parameters that [parseInt] reads
    as [NaN] or 0, the endpoint answers as for page 1 with page size 10:
    status 200 and the ten newest claims, newest first.  When the query
    throws, the answer is 500. *)
Theorem claims_defaults_to_ten_newest (page pageSize : option Z) (st : store) :
  page = None \/ page = Some 0 ->
  pageSize = None \/ pageSize = Some 0 ->
  get_claims page pageSize false st = (200, firstn 10 (newest_first st)) /\
  get_claims page pageSize true st = (500, []).
Proof.
  intros Hp Hs.
  assert (E : forall fault, get_claims page pageSize fault st =
                            get_claims (Some 1) (Some 10) fault st)
    by (destruct Hp as [-> | ->], Hs as [-> | ->]; reflexivity).
  rewrite !E. split; [|reflexivity].
  rewrite get_claims_page by lia. reflexivity.
Qed.


Lemma claims_defaults_to_ten_newest_witness :
  get_claims None (Some 0) false [MoreExamples.row_n "1"] =
    (200, firstn 10 (newest_first [MoreExamples.row_n "1"])) /\
  get_claims None (Some 0) true [MoreExamples.row_n "1"] = (500, []).
Proof.
  apply (claims_defaults_to_ten_newest None (Some 0) [MoreExamples.row_n "1"]).
  - left. reflexivity.
  - right. reflexivity.
Defined.

End ClaimsProofs.

(** ** GET /check-balance against POST /verify-snapshot *)

Module CheckBalanceProofs.

Import Verify VerifyProofs CheckBalance MoreExamples.

(** X16.  Both endpoints read the balance of an address from the same
    place of the node's answer: GET /check-balance answers 200 with a
    balance exactly when POST /verify-snapshot can read that same
    balance for its comparison.  They differ when the node knows no
    balance for the address (no data, no balances, or an empty array):
    GET /check-balance answers 400, while a submission that has passed
    the first four checks is answered 500. *)
Theorem check_balance_reads_what_verify_snapshot_compares
    (StringToNumber : string -> option Z)
    (c : ascii) (address : string) (data : balances_data) :
  (forall b, check_balance (Some (String c address)) (Normal data) = (200, Balance b)
             <-> first_balance data = Some b) /\
  (data = NoBalancesData \/ data = NoBalances \/ data = Balances [] ->
   check_balance (Some (String c address)) (Normal data) =
     (400, BalanceError "Unable to retrieve balance for the given address") /\
   forall w st req,
     first_failing [ missing_signature_check;
                     snapshot_height_check StringToNumber;
                     claim_deadline_check;
                     duplicate_address_check ] w st req = Pass ->
     response_of (snd (handle_request StringToNumber
                         (with_balances w (Normal data)) st req)) =
       Some (mkResponse 500 (ErrorBody "Internal server error"))).
Proof.
  split.
  - intros b. destruct data as [| |[|[v|] entries]]; cbn; split;
      intros H; try discriminate H; congruence.
  - intros Hdata. split.
    + destruct Hdata as [-> | [-> | ->]]; reflexivity.
    + intros w st req Hpass.
      rewrite (handle_request_response StringToNumber).
      unfold pipeline, checks. cbn [first_failing] in Hpass |- *.
      assert (Hsig : missing_signature_check (with_balances w (Normal data)) st req
                     = missing_signature_check w st req) by reflexivity.
      assert (Hh : snapshot_height_check StringToNumber
                     (with_balances w (Normal data)) st req
                   = snapshot_height_check StringToNumber w st req) by reflexivity.
      assert (Hd : claim_deadline_check (with_balances w (Normal data)) st req
                   = claim_deadline_check w st req) by reflexivity.
      assert (Hf : duplicate_address_check (with_balances w (Normal data)) st req
                   = duplicate_address_check w st req) by reflexivity.
      rewrite Hsig, Hh, Hd, Hf.
      destruct (missing_signature_check w st req); try discriminate.
      destruct (snapshot_height_check StringToNumber w st req); try discriminate.
      destruct (claim_deadline_check w st req); try discriminate.
      destruct (duplicate_address_check w st req); try discriminate.
      unfold balance_check. cbn.
      destruct Hdata as [-> | [-> | ->]]; reflexivity.
Qed.

End CheckBalanceProofs.
